(** * bauh.gems.arch.aur: the .SRCINFO reader and the AUR client

    A shallow embedding of [src/bauh/gems/arch/aur.py].

    - Python [str] is [string], a character standing for the code point of
      its number, 0 to 255; inside the tokenizer a text is the list of its
      characters.  The character classes [\w] and [\s] and [str.strip] are
      Python's Unicode classes on these code points: the letters and
      numerals of Latin-1 are word characters, U+0085 and U+00A0 are white
      space.  The letter U+00E9 is the one character [ascii_of_nat 233], not
      the two bytes of an encoding of it.  A text with a code point above
      255 has no counterpart here.
    - A Python [set] of strings is a [gset string]; the unpacking [[*val]]
      of a set is [elements], whose order is as unspecified as Python's.
    - A Python [dict] keeps insertion order and is an association list with
      unique keys: [dict_get], [dict_set].  The cache of the client is only
      read by key and is a [gmap string].
    - [merge_subinfos] puts the set object of a block into [info] and may
      add to it later; the blocks are not read again afterwards, so the
      sharing is not observable and the model copies the value.
    - An exception is a value: [transport_exn] for what the transport
      raises, [exn] for what the client raises; a computation that can raise
      returns a [result].  The client threads its state explicitly, and the
      state records the calls to the transport in a trace.  Logging has no
      effect on any result and is left out. *)

From Stdlib Require Import Ascii String List Arith Lia Bool.
From stdpp Require Import gmap strings list fin_maps pretty.
Import ListNotations.

Open Scope string_scope.
Open Scope list_scope.

(** ** Characters *)

Module Chars.

Definition code (c : ascii) : nat := nat_of_ascii c.

Definition between (lo hi : nat) (c : ascii) : bool :=
  Nat.leb lo (code c) && Nat.leb (code c) hi.

(** [\w] on a [str] pattern, [str.isalnum] or the underscore: the ASCII
    letters and digits, the underscore, and of Latin-1 the ordinal
    indicators 170 and 186, the micro sign 181, the superscripts 178, 179
    and 185, the fractions 188..190 and the letters 192..255 without the
    signs 215 and 247. *)
Definition is_word (c : ascii) : bool :=
  between 97 122 c || between 65 90 c || between 48 57 c || Nat.eqb (code c) 95
  || Nat.eqb (code c) 170 || between 178 179 c || Nat.eqb (code c) 181
  || between 185 186 c || between 188 190 c
  || between 192 214 c || between 216 246 c || between 248 255 c.

(** [\s] on a [str] pattern and [str.isspace], which [str.strip] uses: tab,
    line feed, vertical tab, form feed, carriage return, the four
    separators 28..31, the space, the next-line control 133 and the
    no-break space 160. *)
Definition is_space (c : ascii) : bool :=
  between 9 13 c || between 28 32 c || Nat.eqb (code c) 133 || Nat.eqb (code c) 160.

Definition is_newline (c : ascii) : bool := Nat.eqb (code c) 10.

(** [.] without DOTALL: anything but a line feed. *)
Definition is_dot (c : ascii) : bool := negb (is_newline c).

Definition is_equals (c : ascii) : bool := Nat.eqb (code c) 61.

End Chars.

(** ** A backtracking matcher for the fragment of [re] the module uses

    An item is a character class taken once, or a greedy [+] over a
    character class.  A greedy [+] first takes the longest run and gives
    characters back one at a time while the rest of the pattern fails, as
    the backtracking engine of [re] does. *)

Module Regex.

Inductive item : Type :=
| One (p : ascii -> bool)
| Many1 (p : ascii -> bool).

Fixpoint run_length (p : ascii -> bool) (s : list ascii) : nat :=
  match s with
  | c :: s' => if p c then S (run_length p s') else 0
  | [] => 0
  end.

Section Backtrack.
Variable k : list ascii -> option (list (list ascii) * list ascii).

(** Try the continuation after [n] characters, then [n - 1], down to 1. *)
Fixpoint try_counts (n : nat) (s : list ascii)
  : option (list (list ascii) * list ascii) :=
  match n with
  | 0 => None
  | S n' =>
      match k (drop n s) with
      | Some (gs, r) => Some (take n s :: gs, r)
      | None => try_counts n' s
      end
  end.
End Backtrack.

(** [match_items its s]: match the items in sequence at the start of [s];
    the result is the text taken by each item and the unread rest. *)
Fixpoint match_items (its : list item) (s : list ascii)
  : option (list (list ascii) * list ascii) :=
  match its with
  | [] => Some ([], s)
  | One p :: its' =>
      match s with
      | c :: s' =>
          if p c then
            match match_items its' s' with
            | Some (gs, r) => Some ([c] :: gs, r)
            | None => None
            end
          else None
      | [] => None
      end
  | Many1 p :: its' => try_counts (match_items its') (run_length p s) s
  end.

(** [findall]: scan left to right; at a match emit the text of every item
    and go on after the match, otherwise move one character on.  A match of
    a pattern with at least one item is never empty, so the length of the
    text is enough fuel. *)
Fixpoint findall_fuel (fuel : nat) (its : list item) (s : list ascii)
  : list (list (list ascii)) :=
  match fuel with
  | 0 => []
  | S fuel' =>
      match s with
      | [] => []
      | _ :: s' =>
          match match_items its s with
          | Some (gs, r) => gs :: findall_fuel fuel' its r
          | None => findall_fuel fuel' its s'
          end
      end
  end.

Definition findall (its : list item) (s : list ascii) : list (list (list ascii)) :=
  findall_fuel (length s) its s.

End Regex.

(** ** Module constants *)

(** [RE_SRCINFO_KEYS = re.compile(r'(\w+)\s+=\s+(.+)\n')]; the two groups
    are the items 0 and 4. *)
Definition RE_SRCINFO_KEYS : list Regex.item :=
  [ Regex.Many1 Chars.is_word; Regex.Many1 Chars.is_space;
    Regex.One Chars.is_equals; Regex.Many1 Chars.is_space;
    Regex.Many1 Chars.is_dot; Regex.One Chars.is_newline ].

Definition KNOWN_LIST_FIELDS : list string :=
  [ "validpgpkeys";
    "checkdepends"; "checkdepends_x86_64"; "checkdepends_i686";
    "depends"; "depends_x86_64"; "depends_i686";
    "optdepends"; "optdepends_x86_64"; "optdepends_i686";
    "sha256sums"; "sha256sums_x86_64";
    "sha512sums"; "sha512sums_x86_64";
    "source"; "source_x86_64"; "source_i686";
    "makedepends"; "makedepends_x86_64"; "makedepends_i686";
    "provides"; "conflicts" ].

(** ** The line tokenizer: [RE_SRCINFO_KEYS.findall] and the two [strip]s *)

Fixpoint lstrip (s : list ascii) : list ascii :=
  match s with
  | c :: s' => if Chars.is_space c then lstrip s' else s
  | [] => []
  end.

Definition rstrip (s : list ascii) : list ascii := rev (lstrip (rev s)).

(** [str.strip()] *)
Definition strip (s : list ascii) : list ascii := rstrip (lstrip s).

(** The [(key, val)] of one match: [field[0].strip()], [field[1].strip()]. *)
Definition field_pair (gs : list (list ascii)) : list ascii * list ascii :=
  (strip (nth 0 gs []), strip (nth 4 gs [])).

Definition tokenize_chars (s : list ascii) : list (list ascii * list ascii) :=
  map field_pair (Regex.findall RE_SRCINFO_KEYS s).

Definition tokenize (s : string) : list (string * string) :=
  map (fun kv => (string_of_list_ascii (fst kv), string_of_list_ascii (snd kv)))
      (tokenize_chars (list_ascii_of_string s)).

(** ** Values, dictionaries and outcomes *)

(** What the transport can raise: [requests.exceptions.ConnectionError],
    which [download_names] names, or anything else. *)
Inductive transport_exn : Type :=
| ConnectionError
| OtherTransportError.

(** What the client can raise: what the transport raised, or the module's
    own [PackageNotFoundException]. *)
Inductive exn : Type :=
| TransportRaised (e : transport_exn)
| PackageNotFoundException (name : string).

Inductive result (E A : Type) : Type :=
| Ok (a : A)
| Raise (e : E).
Arguments Ok {E A} a.
Arguments Raise {E A} e.

(** A value inside a block and during the merge: a [str] or a [set]. *)
Inductive bval : Type :=
| BStr (s : string)
| BSet (s : gset string).

(** A value of a returned record: a [str] or a [list]. *)
Inductive fval : Type :=
| FStr (s : string)
| FList (l : list string).

Definition dict (V : Type) : Type := list (string * V).

(** [d.get(k)] *)
Fixpoint dict_get {V : Type} (k : string) (d : dict V) : option V :=
  match d with
  | [] => None
  | (k', v) :: d' => if String.eqb k k' then Some v else dict_get k d'
  end.

(** [d[k] = v]: in place for a key the dictionary has, at the end otherwise. *)
Fixpoint dict_set {V : Type} (k : string) (v : V) (d : dict V) : dict V :=
  match d with
  | [] => [(k, v)]
  | (k', v') :: d' =>
      if String.eqb k k' then (k, v) :: d' else (k', v') :: dict_set k v d'
  end.

(** The truth value of a dictionary or a list: non-empty. *)
Definition nonempty {A : Type} (l : list A) : bool :=
  match l with [] => false | _ :: _ => true end.

(** The truth value of an [Optional[str]]: neither [None] nor [''] . *)
Definition str_given (o : option string) : bool :=
  match o with
  | Some s => negb (String.eqb s "")
  | None => false
  end.

(** [not fields or key in fields] for [fields : Optional[Set[str]]]. *)
Definition field_allowed (fields : option (gset string)) (key : string) : bool :=
  match fields with
  | None => true
  | Some f => bool_decide (f = ∅) || bool_decide (key ∈ f)
  end.

(** The set a value stands for: a scalar wrapped as [{v}], a set as it is. *)
Definition as_set (v : bval) : gset string :=
  match v with
  | BStr s => {[ s ]}
  | BSet s => s
  end.

(** ** [map_srcinfo]: the segmentation loop *)

Definition key_fields : gset string := {[ "pkgname"; "pkgbase" ]}.

Definition in_known_list (key : string) : bool :=
  bool_decide (key ∈ KNOWN_LIST_FIELDS).

Definition is_boundary (key : string) : bool := bool_decide (key ∈ key_fields).

(** The [if key not in subinfo: ... else: ...] under the [elif]: a first
    value is stored as it is, or as a one-element set for a known list
    field; a later value turns a scalar into a set and is added. *)
Definition block_insert (key val : string) (subinfo : dict bval) : dict bval :=
  match dict_get key subinfo with
  | None =>
      dict_set key (if in_known_list key then BSet {[ val ]} else BStr val) subinfo
  | Some cur => dict_set key (BSet (as_set cur ∪ {[ val ]})) subinfo
  end.

(** The body of the [for field in ...findall(string)] loop; the state is
    [(subinfos, subinfo)] and [field] is already stripped by [tokenize]. *)
Definition seg_step (fields : option (gset string))
    (st : list (dict bval) * dict bval) (field : string * string)
  : list (dict bval) * dict bval :=
  let '(subinfos, subinfo) := st in
  let '(key, val) := field in
  if nonempty subinfo && is_boundary key then
    (subinfos ++ [subinfo], [(key, BStr val)])
  else if field_allowed fields key then (subinfos, block_insert key val subinfo)
  else st.

(** The loop, followed by [if subinfo: subinfos.append(subinfo)]. *)
Definition segment (fields : option (gset string)) (pairs : list (string * string))
  : list (dict bval) :=
  let '(subinfos, subinfo) := fold_left (seg_step fields) pairs ([], []) in
  if nonempty subinfo then subinfos ++ [subinfo] else subinfos.

(** ** [merge_subinfos] *)

(** [not pkgname or subinfo.get('pkgname') in {None, pkgname}]; a set is
    never a member of a set of strings. *)
Definition block_selected (pkgname : option string) (subinfo : dict bval) : bool :=
  negb (str_given pkgname) ||
  match dict_get "pkgname" subinfo with
  | None => true
  | Some (BStr s) => bool_decide (pkgname = Some s)
  | Some (BSet _) => false
  end.

(** The body of [for key, val in subinfo.items()]. *)
Definition merge_item (fields : option (gset string))
    (info : dict bval) (kv : string * bval) : dict bval :=
  let '(key, val) := kv in
  if field_allowed fields key then
    match dict_get key info with
    | None => dict_set key val info
    | Some current_val => dict_set key (BSet (as_set current_val ∪ as_set val)) info
    end
  else info.

Definition merge_block (pkgname : option string) (fields : option (gset string))
    (info : dict bval) (subinfo : dict bval) : dict bval :=
  if block_selected pkgname subinfo then fold_left (merge_item fields) subinfo info
  else info.

(** [info[field] = [*val]] for a set. *)
Definition materialize (v : bval) : fval :=
  match v with
  | BStr s => FStr s
  | BSet s => FList (elements s)
  end.

Definition merge_subinfos (subinfos : list (dict bval))
    (pkgname : option string) (fields : option (gset string)) : dict fval :=
  let info := fold_left (merge_block pkgname fields) subinfos [] in
  map (fun kv => (fst kv, materialize (snd kv))) info.

(** ** [map_srcinfo]: the whole function *)

(** [{s['pkgname'] for s in subinfos if 'pkgname' in s}].  A block built by
    [segment] holds a string under [pkgname] ([segment_pkgname_scalar]
    below), so the comprehension never meets an unhashable value. *)
Definition pkgnames_of (subinfos : list (dict bval)) : gset string :=
  list_to_set
    (omap (fun s => match dict_get "pkgname" s with
                    | Some (BStr n) => Some n
                    | _ => None
                    end) subinfos).

(** The [pkgname] argument handed to [merge_subinfos]. *)
Definition merge_target (pkgnames : gset string) (pkgname : option string)
  : option string :=
  match pkgname with
  | Some n =>
      if negb (str_given pkgname) || Nat.eqb (size pkgnames) 1
         || negb (bool_decide (n ∈ pkgnames))
      then None else pkgname
  | None => None
  end.

Definition map_srcinfo_pairs (pairs : list (string * string))
    (pkgname : option string) (fields : option (gset string)) : dict fval :=
  let subinfos := segment fields pairs in
  merge_subinfos subinfos (merge_target (pkgnames_of subinfos) pkgname) fields.

Definition map_srcinfo (text : string) (pkgname : option string)
    (fields : option (gset string)) : dict fval :=
  map_srcinfo_pairs (tokenize text) pkgname fields.

(** ** [AURClient] *)

Definition URL_INFO : string := "https://aur.archlinux.org/rpc/?v=5&type=info&".
Definition URL_SRC_INFO : string :=
  "https://aur.archlinux.org/cgit/aur.git/plain/.SRCINFO?h=".

(** A [requests.Response] as far as the module reads it: its truth value
    ([ok]) and its [text]. *)
Record Response : Type := { ok : bool; text : string }.

(** One entry of the [results] list of the info endpoint as far as the
    module reads it: [info.get('Name')] and [info.get('PackageBase')]. *)
Record info_entry : Type := { Name : option string; PackageBase : option string }.

(** What the client does to the outside, in order; [EvLookup] marks an
    entry into [get_src_info]. *)
Inductive event : Type :=
| EvLookup (name : string) (real_name : option string)
| EvGet (url : string)
| EvGetJson (url : string).

(** Iterating a value of a record: the items of a list, the characters of a
    string. *)
Definition iter_fval (v : fval) : list string :=
  match v with
  | FList l => l
  | FStr s => map (fun c => String c EmptyString) (list_ascii_of_string s)
  end.

Definition fval_truthy (v : fval) : bool :=
  match v with
  | FList l => nonempty l
  | FStr s => negb (String.eqb s "")
  end.

Definition arch_name (x86_64 : bool) : string :=
  if x86_64 then "x86_64" else "i686".

(** The tuple [extract_required_dependencies] iterates over. *)
Definition dependency_attrs (x86_64 : bool) : list string :=
  [ "makedepends"; "makedepends_" +:+ arch_name x86_64;
    "depends"; "depends_" +:+ arch_name x86_64;
    "checkdepends"; "checkdepends_" +:+ arch_name x86_64 ].

Definition extract_step (srcinfo : dict fval) (deps : gset string) (attr : string)
  : gset string :=
  match dict_get attr srcinfo with
  | Some v => if fval_truthy v then deps ∪ list_to_set (iter_fval v) else deps
  | None => deps
  end.

Definition extract_required_dependencies (x86_64 : bool) (srcinfo : dict fval)
  : gset string :=
  fold_left (extract_step srcinfo) (dependency_attrs x86_64) ∅.

(** The truth value of what [get_src_info] returns: a non-empty [dict]. *)
Definition record_truthy (o : option (dict fval)) : bool :=
  match o with
  | Some d => nonempty d
  | None => false
  end.

(** [res and res.text] *)
Definition has_content (res : option Response) : bool :=
  match res with
  | Some r => ok r && negb (String.eqb (text r) "")
  | None => false
  end.

Definition response_text (res : option Response) : string :=
  match res with
  | Some r => text r
  | None => ""
  end.

Section Client.

(** The transport collaborator [HttpClient] and [urllib.parse.quote] are
    not part of the module.  [W] is the state of the outside world;
    [http_get] is [http_client.get]: it raises, returns [None], or returns
    a response.  [http_get_json] is [http_client.get_json] reduced to the
    [results] entry of its reply ([None] when the reply is empty or has no
    such entry). *)
Context {W : Type}.
Variable http_get : string -> W -> result transport_exn (option Response) * W.
Variable http_get_json :
  string -> W -> result transport_exn (option (list info_entry)) * W.
Variable quote : string -> string.

Record client : Type := {
  x86_64 : bool;
  srcinfo_cache : gmap string (dict fval);
  world : W;
  trace : list event
}.

(** [AURClient.__init__] *)
Definition new_client (x86 : bool) (w : W) : client :=
  {| x86_64 := x86; srcinfo_cache := ∅; world := w; trace := [] |}.

Definition record (e : event) (c : client) : client :=
  {| x86_64 := x86_64 c; srcinfo_cache := srcinfo_cache c;
     world := world c; trace := trace c ++ [e] |}.

Definition set_world (w : W) (c : client) : client :=
  {| x86_64 := x86_64 c; srcinfo_cache := srcinfo_cache c;
     world := w; trace := trace c |}.

(** [self.srcinfo_cache[name] = srcinfo] *)
Definition cache_store (name : string) (srcinfo : dict fval) (c : client) : client :=
  {| x86_64 := x86_64 c; srcinfo_cache := <[ name := srcinfo ]> (srcinfo_cache c);
     world := world c; trace := trace c |}.

(** [clean_caches] *)
Definition clean_caches (c : client) : client :=
  {| x86_64 := x86_64 c; srcinfo_cache := ∅; world := world c; trace := trace c |}.

(** [_map_names_as_queries]: ['&'.join('arg[i]=quote(n)')] *)
Definition map_names_as_queries (names : list string) : string :=
  String.concat "&"
    (imap (fun i n =>
             "arg[" +:+ pretty i +:+ "]=" +:+ quote n)
          names).

(** [get_info]: the bare [except] turns every exception into [[]]. *)
Definition get_info (names : list string) (c : client) : list info_entry * client :=
  let url := URL_INFO +:+ map_names_as_queries names in
  let '(res, w) := http_get_json url (world c) in
  let c := set_world w (record (EvGetJson url) c) in
  match res with
  | Ok (Some results) => (results, c)
  | Ok None => ([], c)
  | Raise _ => ([], c)
  end.

(** [info_name and info_base and info_name != info_base] *)
Definition based_on_another (info : info_entry) : bool :=
  str_given (Name info) && str_given (PackageBase info)
  && negb (bool_decide (Name info = PackageBase info)).

(** [get_src_info].  The recursion of the source has no bound of its own,
    so the model takes fuel; [None] is "out of fuel".  Python returns
    [None] when it falls off the end of the function: [Ok None]. *)
Fixpoint get_src_info (fuel : nat) (name : string) (real_name : option string)
    (c : client) : option (result transport_exn (option (dict fval)) * client) :=
  match fuel with
  | 0 => None
  | S fuel' =>
      let c := record (EvLookup name real_name) c in
      if record_truthy (srcinfo_cache c !! name) then
        Some (Ok (srcinfo_cache c !! name), c)
      else
        let url := URL_SRC_INFO +:+ quote name in
        let '(res, w) := http_get url (world c) in
        let c := set_world w (record (EvGet url) c) in
        match res with
        | Raise e => Some (Raise e, c)
        | Ok res =>
            if has_content res then
              let srcinfo :=
                map_srcinfo (response_text res)
                            (if str_given real_name then real_name else Some name)
                            None in
              let c := if nonempty srcinfo then cache_store name srcinfo c else c in
              Some (Ok (Some srcinfo), c)
            else
              let '(infos, c) := get_info [name] c in
              match infos with
              | info :: _ =>
                  if based_on_another info then
                    match
                      get_src_info fuel'
                        (default "" (PackageBase info)) (Name info) c
                    with
                    | Some (Ok srcinfo, c) =>
                        let c := if record_truthy srcinfo
                                 then cache_store name (default [] srcinfo) c
                                 else c in
                        Some (Ok srcinfo, c)
                    | Some (Raise e, c) => Some (Raise e, c)
                    | None => None
                    end
                  else Some (Ok None, c)
              | [] => Some (Ok None, c)
              end
        end
  end.

(** [get_required_dependencies] *)
Definition get_required_dependencies (fuel : nat) (name : string) (c : client)
  : option (result exn (gset string) * client) :=
  match get_src_info fuel name None c with
  | Some (Ok info, c) =>
      if record_truthy info
      then Some (Ok (extract_required_dependencies (x86_64 c) (default [] info)), c)
      else Some (Raise (PackageNotFoundException name), c)
  | Some (Raise e, c) => Some (Raise (TransportRaised e), c)
  | None => None
  end.

End Client.

(** ** Statements about the tokenizer *)

Definition newline : ascii := ascii_of_nat 10.
Definition equals_sign : ascii := ascii_of_nat 61.

(** What an item may take. *)
Definition item_matches (it : Regex.item) (g : list ascii) : Prop :=
  match it with
  | Regex.One p => exists c, g = [c] /\ p c = true
  | Regex.Many1 p => g <> [] /\ Forall (fun c => p c = true) g
  end.

(** [gs] is the text of the items of one occurrence of the pattern in [s]. *)
Definition occurs_in (its : list Regex.item) (s : list ascii)
    (gs : list (list ascii)) : Prop :=
  exists pre post, s = pre ++ concat gs ++ post /\ Forall2 item_matches its gs.

(** A line [key sep1 = sep2 value] with its line feed. *)
Record srcinfo_line : Type := {
  l_key : list ascii;
  l_sep1 : list ascii;
  l_sep2 : list ascii;
  l_value : list ascii
}.

Definition line_text (l : srcinfo_line) : list ascii :=
  l_key l ++ l_sep1 l ++ [equals_sign] ++ l_sep2 l ++ l_value l ++ [newline].

(** The key is a non-empty run of word characters, both separators are
    non-empty white space, the value starts with a character that is not
    white space and holds no line feed. *)
Definition line_ok (l : srcinfo_line) : bool :=
  nonempty (l_key l) && forallb Chars.is_word (l_key l)
  && nonempty (l_sep1 l) && forallb Chars.is_space (l_sep1 l)
  && nonempty (l_sep2 l) && forallb Chars.is_space (l_sep2 l)
  && match l_value l with
     | c :: _ => negb (Chars.is_space c)
     | [] => false
     end
  && forallb Chars.is_dot (l_value l).






Definition nl : string := String newline EmptyString.



(** ** Statements about the segmentation *)

(** Segmentation in the words of the specification, on blocks that are
    lists of pairs: at a boundary key with a current block that holds an
    entry, close the block and open one seeded with the pair; otherwise put
    the pair into the current block. *)
Definition spec_seg_step
    (st : list (list (string * string)) * list (string * string))
    (field : string * string)
  : list (list (string * string)) * list (string * string) :=
  let '(closed, cur) := st in
  if nonempty cur && is_boundary (fst field) then (closed ++ [cur], [field])
  else (closed, cur ++ [field]).

Definition spec_flush
    (st : list (list (string * string)) * list (string * string))
  : list (list (string * string)) :=
  if nonempty (snd st) then fst st ++ [snd st] else fst st.

Definition spec_segment (pairs : list (string * string))
  : list (list (string * string)) :=
  spec_flush (fold_left spec_seg_step pairs ([], [])).

(** The dictionary the loop builds from the pairs of one block. *)
Definition block_of_pairs (ps : list (string * string)) : dict bval :=
  fold_left (fun b f => block_insert (fst f) (snd f) b) ps [].




(** The values a dictionary holds under a key, as a set. *)
Definition values_at (key : string) (d : dict bval) : gset string :=
  match dict_get key d with
  | Some v => as_set v
  | None => ∅
  end.

Definition example_pairs : list (string * string) :=
  [ ("pkgbase", "b"); ("pkgver", "1"); ("pkgname", "x"); ("pkgdesc", "d");
    ("pkgname", "y") ].


(** ** Statements about the merge *)

(** The blocks the specification lets into the merge for a target name:
    those whose [pkgname] is the target and those without a [pkgname]. *)
Definition spec_selected (target : string) (subinfo : dict bval) : bool :=
  match dict_get "pkgname" subinfo with
  | None => true
  | Some (BStr n) => String.eqb n target
  | Some (BSet _) => false
  end.

(** What [merge_subinfos] makes of the value [v] of a block when [info]
    holds [o] under the same key. *)
Definition merge_value (o : option bval) (v : bval) : bval :=
  match o with
  | None => v
  | Some cur => BSet (as_set cur ∪ as_set v)
  end.

(** The effect of one block on the entry of [info] under [key]. *)
Definition merge_key (pkgname : option string) (fields : option (gset string))
    (key : string) (o : option bval) (subinfo : dict bval) : option bval :=
  if block_selected pkgname subinfo && field_allowed fields key then
    match dict_get key subinfo with
    | Some v => Some (merge_value o v)
    | None => o
    end
  else o.

Definition is_set (v : bval) : Prop :=
  match v with BSet _ => True | BStr _ => False end.

(** Every known list field of the dictionary holds a set. *)
Definition known_are_sets (d : dict bval) : Prop :=
  Forall (fun kv => in_known_list (fst kv) = true -> is_set (snd kv)) d.

(** [pkgname], when present, holds a string. *)
Definition pkgname_scalar (d : dict bval) : Prop :=
  match dict_get "pkgname" d with
  | Some (BSet _) => False
  | _ => True
  end.

Definition unique_keys {V : Type} (d : dict V) : Prop := NoDup (map fst d).

(** The values a key gets from the blocks that enter the merge. *)
Definition folded_values (pkgname : option string) (fields : option (gset string))
    (key : string) (blocks : list (dict bval)) : gset string :=
  ⋃ (map (fun blk => if block_selected pkgname blk && field_allowed fields key
                     then values_at key blk else ∅) blocks).

Definition bvalues (o : option bval) : gset string :=
  match o with
  | Some v => as_set v
  | None => ∅
  end.

Definition example_scope : list (string * string) :=
  [ ("pkgbase", "p"); ("url", "a"); ("url", "b"); ("url", "a") ].

(** ** Statements about the dependency extraction *)

(** The items a field contributes: those of its value, none when absent. *)
Definition field_items (o : option fval) : gset string :=
  match o with
  | Some v => list_to_set (iter_fval v)
  | None => ∅
  end.

Definition example_record : dict fval :=
  [ ("pkgname", FStr "foo"); ("depends", FList ["a"; "b>=1"]);
    ("makedepends_x86_64", FList ["c"]); ("depends_i686", FList ["d"]) ].

Definition example_bare : dict fval :=
  [ ("pkgname", FStr "foo"); ("depends_i686", FList ["d"]) ].

(** ** Statements about the client *)

(** The URLs of the document fetches and the lookups of a trace, in order. *)
Definition fetches (t : list event) : list string :=
  omap (fun e => match e with EvGet url => Some url | _ => None end) t.

Definition lookups (t : list event) : list (string * option string) :=
  omap (fun e => match e with EvLookup n r => Some (n, r) | _ => None end) t.

(** What a caller can do with a client. *)
Inductive op : Type :=
| OpLookup (name : string) (real_name : option string)
| OpRequired (name : string)
| OpClear.

Definition is_clear (o : op) : bool :=
  match o with OpClear => true | _ => false end.

Section ClientStatements.

Context {W : Type}.
Variable http_get : string -> W -> result transport_exn (option Response) * W.
Variable http_get_json :
  string -> W -> result transport_exn (option (list info_entry)) * W.
Variable quote : string -> string.


(** A sequence of calls, each with the same fuel; an exception of a call
    is caught by the caller and the client lives on. *)
Fixpoint run_ops (fuel : nat) (ops : list op) (c : @client W) : option (@client W) :=
  match ops with
  | [] => Some c
  | OpLookup name real_name :: ops' =>
      match get_src_info http_get http_get_json quote fuel name real_name c with
      | Some (_, c') => run_ops fuel ops' c'
      | None => None
      end
  | OpRequired name :: ops' =>
      match get_required_dependencies http_get http_get_json quote fuel name c with
      | Some (_, c') => run_ops fuel ops' c'
      | None => None
      end
  | OpClear :: ops' => run_ops fuel ops' (clean_caches c)
  end.

(** The client after the fetch of the document of [name]. *)
Definition after_fetch (name : string) (real_name : option string)
    (w1 : W) (c : @client W) : @client W :=
  set_world w1
    (record (EvGet (URL_SRC_INFO +:+ quote name))
       (record (EvLookup name real_name) c)).

(** The client after the fetch and the info query for [name]. *)
Definition after_miss (name : string) (real_name : option string)
    (w1 w2 : W) (c : @client W) : @client W :=
  set_world w2
    (record (EvGetJson (URL_INFO +:+ map_names_as_queries quote [name]))
       (after_fetch name real_name w1 c)).

(** [name] has no document and the info endpoint reports it as based on
    [base], whatever the state of the remote world. *)
Definition reported_base (name base : string) : Prop :=
  forall w, exists res w1 info rest w2,
    http_get (URL_SRC_INFO +:+ quote name) w = (Ok res, w1)
    /\ has_content res = false
    /\ http_get_json (URL_INFO +:+ map_names_as_queries quote [name]) w1
       = (Ok (Some (info :: rest)), w2)
    /\ based_on_another info = true
    /\ PackageBase info = Some base.

(** A chain of names, each reported as based on the next. *)
Fixpoint base_chain (name : string) (bases : list string) : Prop :=
  match bases with
  | [] => True
  | b :: bases' => reported_base name b /\ base_chain b bases'
  end.

End ClientStatements.

(** *** Remote worlds given by tables, for the examples *)

Definition table_get (docs : dict string) (url : string) (w : unit)
  : result transport_exn (option Response) * unit :=
  match dict_get url docs with
  | Some t => (Ok (Some {| ok := true; text := t |}), w)
  | None => (Ok None, w)
  end.

Definition table_get_json (infos : dict (list info_entry)) (url : string) (w : unit)
  : result transport_exn (option (list info_entry)) * unit :=
  match dict_get url infos with
  | Some l => (Ok (Some l), w)
  | None => (Ok None, w)
  end.

(** No connection: every call of the transport raises. *)
Definition offline_get (url : string) (w : unit)
  : result transport_exn (option Response) * unit := (Raise ConnectionError, w).

Definition offline_get_json (url : string) (w : unit)
  : result transport_exn (option (list info_entry)) * unit :=
  (Raise ConnectionError, w).

Definition no_quote (s : string) : string := s.

Definition src_url (name : string) : string := URL_SRC_INFO +:+ name.
Definition info_url (name : string) : string := URL_INFO +:+ "arg[0]=" +:+ name.

Definition entry (name base : string) : info_entry :=
  {| Name := Some name; PackageBase := Some base |}.

(** [a] is based on [b], [b] on [c]; only [c] has a document, with the two
    sub-packages [b] and [c]. *)
Definition chain_docs : dict string :=
  [ (src_url "c",
     "pkgbase = c" +:+ nl +:+ "pkgver = 1" +:+ nl +:+
     "pkgname = b" +:+ nl +:+ "pkgdesc = of b" +:+ nl +:+
     "pkgname = c" +:+ nl +:+ "pkgdesc = of c" +:+ nl) ].

Definition chain_infos : dict (list info_entry) :=
  [ (info_url "a", [entry "a" "b"]); (info_url "b", [entry "b" "c"]) ].

(** *** The example world and the clients of the examples *)

Definition chain_response : option Response :=
  Some {| ok := true; text := default "" (dict_get (src_url "c") chain_docs) |}.

Definition chain_lookup (fuel : nat) (name : string) (real_name : option string)
    (c : @client unit)
  : option (result transport_exn (option (dict fval)) * @client unit) :=
  get_src_info (table_get chain_docs) (table_get_json chain_infos) no_quote
    fuel name real_name c.

Definition client_of {A : Type} (o : option (A * @client unit)) : @client unit :=
  match o with
  | Some (_, c) => c
  | None => new_client true tt
  end.

(** The record of [c] from its document. *)
Definition chain_record : dict fval :=
  map_srcinfo (response_text chain_response) (Some "c") None.

Definition chain_client_1 : @client unit :=
  client_of (chain_lookup 3 "c" None (new_client true tt)).

Definition chain_ops : list op := [OpLookup "a" None; OpRequired "zzz"].

Definition chain_client_2 : @client unit :=
  default (new_client true tt)
    (run_ops (table_get chain_docs) (table_get_json chain_infos) no_quote
       5 chain_ops chain_client_1).





(** ** Further statements about the parser *)

(** The values a record holds under a key, as a set. *)
Definition record_values (key : string) (r : dict fval) : gset string :=
  match dict_get key r with
  | Some (FStr s) => {[ s ]}
  | Some (FList l) => list_to_set l
  | None => ∅
  end.

(** How often a key is given in a sequence of pairs. *)
Definition key_count (key : string) (ps : list (string * string)) : nat :=
  length (filter (fun f => fst f = key) ps).

Definition example_single : list (string * string) :=
  [ ("pkgbase", "foo"); ("pkgver", "1.0"); ("depends", "a"); ("depends", "b");
    ("pkgname", "foo"); ("depends_x86_64", "c") ].

(** *** More example worlds *)

(** A page that is not a [.SRCINFO]. *)
Definition junk_docs : dict string := [ (src_url "junk", "<html>Not Found</html>") ].

(** [a] and [b] are each reported as based on the other. *)
Definition cycle_infos : dict (list info_entry) :=
  [ (info_url "a", [entry "a" "b"]); (info_url "b", [entry "b" "a"]) ].

(** ** [map_pkgbuild] *)

(** The pattern [r'\n(\w+)=(.+)'] of [map_pkgbuild]; the two groups are the
    items 1 and 3. *)
Definition RE_PKGBUILD : list Regex.item :=
  [ Regex.One Chars.is_newline; Regex.Many1 Chars.is_word;
    Regex.One Chars.is_equals; Regex.Many1 Chars.is_dot ].

(** [s.replace(c, '')] for a single character [c]. *)
Fixpoint remove_char (c : ascii) (s : list ascii) : list ascii :=
  match s with
  | [] => []
  | x :: s' => if Ascii.eqb x c then remove_char c s' else x :: remove_char c s'
  end.

Definition double_quote : ascii := ascii_of_nat 34.
Definition single_quote : ascii := ascii_of_nat 39.
Definition open_paren : ascii := ascii_of_nat 40.
Definition close_paren : ascii := ascii_of_nat 41.

(** The four [replace] calls of the comprehension, in their order: the
    double quote, the single quote, the opening and the closing parenthesis
    are removed. *)
Definition clean_value (val : list ascii) : list ascii :=
  remove_char close_paren
    (remove_char open_paren (remove_char single_quote (remove_char double_quote val))).

(** One step of the dictionary comprehension: a later pair for a key
    replaces the value and keeps the place of the key. *)
Definition pkgbuild_step (d : dict string) (gs : list (list ascii)) : dict string :=
  dict_set (string_of_list_ascii (nth 1 gs []))
           (string_of_list_ascii (clean_value (nth 3 gs []))) d.

Definition map_pkgbuild (pkgbuild : string) : dict string :=
  fold_left pkgbuild_step
    (Regex.findall RE_PKGBUILD (list_ascii_of_string pkgbuild)) [].

Definition clean_string (val : string) : string :=
  string_of_list_ascii (clean_value (list_ascii_of_string val)).

(** An assignment line of a PKGBUILD with the line feed before it. *)
Definition assignment_text (kv : string * string) : list ascii :=
  [newline] ++ list_ascii_of_string (fst kv) ++ [equals_sign]
  ++ list_ascii_of_string (snd kv).

(** The name is a non-empty run of word characters; the value is not empty
    and has no line feed. *)
Definition assignment_ok (kv : string * string) : bool :=
  nonempty (list_ascii_of_string (fst kv))
  && forallb Chars.is_word (list_ascii_of_string (fst kv))
  && nonempty (list_ascii_of_string (snd kv))
  && forallb Chars.is_dot (list_ascii_of_string (snd kv)).

Definition pkgbuild_text (lines : list (string * string)) : string :=
  string_of_list_ascii (concat (map assignment_text lines)).

Definition is_quote_or_paren (c : ascii) : bool :=
  Ascii.eqb c double_quote || Ascii.eqb c single_quote
  || Ascii.eqb c open_paren || Ascii.eqb c close_paren.

Definition example_pkgbuild : list (string * string) :=
  [ ("pkgname", "foo"); ("depends", "('a' 'b')"); ("pkgname", "(bar)") ].

(** ** The name index: [download_names], [read_local_index], [read_index] *)

Definition URL_INDEX : string := "https://aur.archlinux.org/packages.gz".

Definition hash_sign : ascii := ascii_of_nat 35.

(** [s.split(sep)] for a separator of one character: the pieces between
    the separators, at least one. *)
Fixpoint split_on (sep : ascii) (s : list ascii) : list (list ascii) :=
  match s with
  | [] => [[]]
  | c :: s' =>
      if Ascii.eqb c sep then [] :: split_on sep s'
      else match split_on sep s' with
           | h :: t => (c :: h) :: t
           | [] => [[c]]
           end
  end.

(** [f.readlines()] on the text of the file as the text-mode reader gives
    it (line ends already translated to line feeds): the lines with their
    line feeds, the last one perhaps without. *)
Fixpoint readlines (s : list ascii) : list (list ascii) :=
  match s with
  | [] => []
  | c :: s' =>
      if Chars.is_newline c then [c] :: readlines s'
      else match readlines s' with
           | h :: t => (c :: h) :: t
           | [] => [[c]]
           end
  end.

(** [n and not n.startswith('#')] *)
Definition is_name_line (n : list ascii) : bool :=
  match n with
  | [] => false
  | c :: _ => negb (Ascii.eqb c hash_sign)
  end.

(** [{n.strip() for n in text.split('\n') if n and not n.startswith('#')}] *)
Definition names_of_text (text : string) : gset string :=
  list_to_set
    (map (fun n => string_of_list_ascii (strip n))
         (List.filter is_name_line (split_on newline (list_ascii_of_string text)))).

(** [lsplit[1]] on a line without [=]. *)
Inductive index_exn : Type := IndexError.

(** The body of the loop of [read_local_index], with the exception it can
    raise. *)
Definition index_step (index : result index_exn (dict string)) (l : list ascii)
  : result index_exn (dict string) :=
  match index with
  | Raise e => Raise e
  | Ok d =>
      if nonempty l then
        match split_on equals_sign l with
        | k :: v :: _ =>
            Ok (dict_set (string_of_list_ascii k) (string_of_list_ascii (strip v)) d)
        | _ => Raise IndexError
        end
      else Ok d
  end.

(** [read_local_index]; [file] is the text of [AUR_INDEX_FILE], [None] when
    the file does not exist.  The function returns [None] without a file. *)
Definition read_local_index (file : option string)
  : result index_exn (option (dict string)) :=
  match file with
  | Some content =>
      match fold_left index_step (readlines (list_ascii_of_string content)) (Ok []) with
      | Ok d => Ok (Some d)
      | Raise e => Raise e
      end
  | None => Ok None
  end.

(** What [read_index] returns: the values view of the index, or a set. *)
Inductive names : Type :=
| NamesView (l : list string)
| NamesSet (s : gset string).

(** ** [map_update_data] *)

Inductive update_exn : Type :=
| KeyError (key : string)
| TransportFailed (e : transport_exn).

(** The dictionary [map_update_data] returns, key by key. *)
Record update_data : Type := {
  ud_c : option fval;
  ud_s : option string;
  ud_p : gset string;
  ud_r : string;
  ud_v : option fval;
  ud_d : gset string;
  ud_b : fval
}.

Section ClientIndex.

Context {W : Type}.
Variable http_get : string -> W -> result transport_exn (option Response) * W.
Variable http_get_json :
  string -> W -> result transport_exn (option (list info_entry)) * W.
Variable quote : string -> string.

(** [str.format] on a list: the text Python prints for a list of strings. *)
Variable str_of_list : list string -> string.

(** [download_names]: only [ConnectionError] is caught. *)
Definition download_names (c : @client W)
  : result transport_exn (option (gset string)) * @client W :=
  let '(res, w) := http_get URL_INDEX (world c) in
  let c := set_world w (record (EvGet URL_INDEX) c) in
  match res with
  | Ok res =>
      if has_content res then (Ok (Some (names_of_text (response_text res))), c)
      else (Ok None, c)
  | Raise ConnectionError => (Ok None, c)
  | Raise e => (Raise e, c)
  end.

(** [read_index]: the bare [except] turns every exception into [set()]. *)
Definition read_index (file : option string) (c : @client W) : names * @client W :=
  match read_local_index file with
  | Raise _ => (NamesSet ∅, c)
  | Ok index =>
      if match index with Some d => nonempty d | None => false end then
        (NamesView (map snd (default [] index)), c)
      else
        match download_names c with
        | (Ok pkgnames, c') =>
            if match pkgnames with
               | Some s => negb (bool_decide (s = ∅))
               | None => false
               end
            then (NamesSet (default ∅ pkgnames), c')
            else (NamesSet ∅, c')
        | (Raise _, c') => (NamesSet ∅, c')
        end
  end.

(** The text [str.format] puts for a value. *)
Definition str_of_fval (v : fval) : string :=
  match v with
  | FStr s => s
  | FList l => str_of_list l
  end.

(** [map_update_data] *)
Definition map_update_data (fuel : nat) (pkgname : string)
    (latest_version : option string) (srcinfo : option (dict fval)) (c : @client W)
  : option (result update_exn update_data * @client W) :=
  match
    if record_truthy srcinfo then Some (Ok srcinfo, c)
    else get_src_info http_get http_get_json quote fuel pkgname None c
  with
  | None => None
  | Some (Raise e, c') => Some (Raise (TransportFailed e), c')
  | Some (Ok info, c') =>
      if record_truthy info then
        let d := default [] info in
        match dict_get "pkgver" d with
        | None => Some (Raise (KeyError "pkgver"), c')
        | Some ver =>
            let provided : gset string :=
              {[ pkgname ]} ∪ {[ pkgname +:+ "=" +:+ str_of_fval ver ]} in
            let provided :=
              match dict_get "provides" d with
              | Some p =>
                  if fval_truthy p then provided ∪ list_to_set (iter_fval p)
                  else provided
              | None => provided
              end in
            Some (Ok {| ud_c := dict_get "conflicts" d; ud_s := None;
                        ud_p := provided; ud_r := "aur"; ud_v := Some ver;
                        ud_d := extract_required_dependencies (x86_64 c') d;
                        ud_b := default (FStr pkgname) (dict_get "pkgbase" d) |},
                  c')
        end
      else
        let provided : gset string :=
          if str_given latest_version
          then {[ pkgname ]} ∪ {[ pkgname +:+ "=" +:+ default "" latest_version ]}
          else {[ pkgname ]} in
        Some (Ok {| ud_c := None; ud_s := None; ud_p := provided; ud_r := "aur";
                    ud_v := FStr <$> latest_version; ud_d := ∅;
                    ud_b := FStr pkgname |},
              c')
  end.

End ClientIndex.

(** *** Texts of the index, for the statements *)

(** [sep.join(lines)] *)
Fixpoint join_lines (sep : ascii) (lines : list (list ascii)) : list ascii :=
  match lines with
  | [] => []
  | [l] => l
  | l :: ls => l ++ sep :: join_lines sep ls
  end.

(** An index file as the module's installer writes it: [name=value] lines. *)
Definition index_line (kv : string * string) : list ascii :=
  list_ascii_of_string (fst kv) ++ [equals_sign] ++ list_ascii_of_string (snd kv)
  ++ [newline].

Definition index_text (entries : list (string * string)) : string :=
  string_of_list_ascii (concat (map index_line entries)).

(** A text that is not empty and has no white space at its ends. *)
Definition no_space_ends (v : list ascii) : bool :=
  match v with c :: _ => negb (Chars.is_space c) | [] => false end
  && match rev v with c :: _ => negb (Chars.is_space c) | [] => false end.

(** Neither [=] nor a line feed in the key; a value that is not empty, has
    neither, and has no white space at its ends. *)
Definition index_entry_ok (kv : string * string) : bool :=
  forallb (fun c => negb (Ascii.eqb c equals_sign) && Chars.is_dot c)
          (list_ascii_of_string (fst kv))
  && forallb (fun c => negb (Ascii.eqb c equals_sign) && Chars.is_dot c)
             (list_ascii_of_string (snd kv))
  && no_space_ends (list_ascii_of_string (snd kv)).

Definition index_reply : string :=
  "# AUR package list" +:+ nl +:+ "foo" +:+ nl +:+ nl +:+ "bar" +:+ nl.

Definition index_reply_lines : list (list ascii) :=
  [ list_ascii_of_string "# AUR package list"; list_ascii_of_string "foo"; [];
    list_ascii_of_string "bar"; [] ].

Definition index_docs : dict string := [ (URL_INDEX, index_reply) ].

Definition example_index : list (string * string) := [ ("foo", "foo"); ("bar", "bar-git") ].

(** *** Patterns that end with a line feed *)

(** The last item of the pattern is a line feed. *)
Fixpoint closes_line (its : list Regex.item) : Prop :=
  match its with
  | [] => False
  | [it] => it = Regex.One Chars.is_newline
  | _ :: its' => closes_line its'
  end.

(** The outcome of a match with [u] added to the unread rest. *)
Definition with_tail (u : list ascii) (o : option (list (list ascii) * list ascii))
  : option (list (list ascii) * list ascii) :=
  match o with
  | Some (gs, r) => Some (gs, r ++ u)
  | None => None
  end.

(** *** Blocks for the examples of the merge *)

(** Two sub-packages, each block with its [pkgname]. *)
Definition two_subpackages : list (dict bval) :=
  [ [ ("pkgname", BStr "a"); ("pkgdesc", BStr "of a") ];
    [ ("pkgname", BStr "b"); ("pkgdesc", BStr "of b") ] ].

(** The bases of [a] in the example world, in order. *)
Definition chain_names : list string := [ "b"; "c" ].


(** *** Documents with lines of both kinds *)









(** * Properties *)

(** ** The matcher and the tokenizer *)

Section RegexFacts.
Import Regex.

Lemma run_length_app (p : ascii -> bool) (a b : list ascii) :
  forallb p a = true ->
  match b with c :: _ => p c = false | [] => True end ->
  run_length p (a ++ b) = length a.
Proof.
  intros Ha Hb. induction a as [|c a IH]; simpl in *.
  - destruct b as [|c b]; [reflexivity|]. simpl. now rewrite Hb.
  - apply andb_true_iff in Ha as [Hc Ha]. rewrite Hc. now rewrite IH.
Qed.

Lemma run_length_take (p : ascii -> bool) (s : list ascii) (n : nat) :
  n <= run_length p s -> Forall (fun c => p c = true) (take n s).
Proof.
  revert n; induction s as [|c s IH]; intros n Hn; simpl in *.
  - rewrite take_nil. constructor.
  - destruct n as [|n]; [constructor|]. simpl.
    destruct (p c) eqn:Hc; [|lia]. constructor; [assumption|]. apply IH. lia.
Qed.

Lemma try_counts_sound k n s gs r :
  try_counts k n s = Some (gs, r) ->
  exists m gs', 0 < m <= n /\ gs = take m s :: gs' /\ k (drop m s) = Some (gs', r).
Proof.
  induction n as [|n IH]; simpl; [discriminate|].
  destruct (k (drop (S n) s)) as [[gs' r']|] eqn:Hk.
  - intros [= <- <-]. exists (S n), gs'. repeat split; [lia|lia|assumption].
  - intros H. destruct (IH H) as (m & gs' & Hm & -> & Hk').
    exists m, gs'. repeat split; [lia|lia|assumption].
Qed.

Lemma try_counts_first k n s gs r :
  k (drop (S n) s) = Some (gs, r) ->
  try_counts k (S n) s = Some (take (S n) s :: gs, r).
Proof. intros H; simpl; now rewrite H. Qed.

Lemma match_items_sound its : forall s gs r,
  match_items its s = Some (gs, r) ->
  s = concat gs ++ r /\ Forall2 item_matches its gs.
Proof.
  induction its as [|it its IH]; intros s gs r; simpl.
  - intros [= <- <-]. split; [reflexivity|constructor].
  - destruct it as [p|p].
    + destruct s as [|c s]; [discriminate|].
      destruct (p c) eqn:Hc; [|discriminate].
      destruct (match_items its s) as [[gs' r']|] eqn:Hm; [|discriminate].
      intros [= <- <-]. destruct (IH _ _ _ Hm) as [-> HF]. split; [reflexivity|].
      constructor; [|assumption]. exists c; auto.
    + intros H. apply try_counts_sound in H as (m & gs' & Hm & -> & Hk).
      destruct (IH _ _ _ Hk) as [Hs HF]. split.
      * simpl. rewrite <- app_assoc, <- Hs. now rewrite take_drop.
      * constructor; [|assumption]. split.
        -- intros Hnil. apply (f_equal length) in Hnil. rewrite length_take in Hnil.
           simpl in Hnil. assert (run_length p s <= length s).
           { clear. induction s as [|c s IH]; simpl; [lia|]. destruct (p c); lia. }
           lia.
        -- apply run_length_take. lia.
Qed.

Lemma match_items_length its s gs r :
  its <> [] -> match_items its s = Some (gs, r) -> length r < length s.
Proof.
  intros Hne H. apply match_items_sound in H as [-> HF].
  rewrite length_app. destruct HF as [|it g its' gs' Hg HF]; [congruence|].
  simpl. rewrite length_app.
  assert (0 < length g); [|lia].
  destruct it; simpl in Hg.
  - destruct Hg as (c & -> & _). simpl; lia.
  - destruct Hg as [Hg _]. destruct g; [congruence|simpl; lia].
Qed.

Lemma findall_fuel_sound its : forall fuel s gs,
  In gs (findall_fuel fuel its s) -> occurs_in its s gs.
Proof.
  induction fuel as [|fuel IH]; intros s gs; simpl; [tauto|].
  destruct s as [|c s]; [simpl; tauto|].
  destruct (match_items its (c :: s)) as [[gs' r]|] eqn:Hm.
  - intros [<-|Hin].
    + apply match_items_sound in Hm as [Hs HF]. exists [], r. split; assumption.
    + apply IH in Hin as (pre & post & -> & HF).
      apply match_items_sound in Hm as [Hs _]. rewrite Hs.
      exists (concat gs' ++ pre), post. split; [|assumption]. now rewrite <- app_assoc.
  - intros Hin. apply IH in Hin as (pre & post & -> & HF).
    exists (c :: pre), post. split; [reflexivity|assumption].
Qed.

(** More fuel than the text is long changes nothing. *)
Lemma findall_fuel_enough its : its <> [] -> forall fuel s,
  length s <= fuel -> findall_fuel fuel its s = findall its s.
Proof.
  intros Hne. unfold findall.
  assert (H : forall n fuel s, length s <= n -> n <= fuel ->
              findall_fuel fuel its s = findall_fuel n its s).
  { induction n as [|n IH]; intros fuel s Hs Hf.
    - destruct s; [|simpl in Hs; lia]. destruct fuel; reflexivity.
    - destruct fuel as [|fuel]; [lia|]. simpl.
      destruct s as [|c s]; [reflexivity|].
      destruct (match_items its (c :: s)) as [[gs r]|] eqn:Hm.
      + f_equal. apply IH; [|lia]. apply match_items_length in Hm; [|assumption].
        simpl in *; lia.
      + apply IH; [simpl in Hs; lia|lia]. }
  intros fuel s Hs. apply H; [lia|assumption].
Qed.

Lemma findall_match its s gs r :
  its <> [] -> match_items its s = Some (gs, r) ->
  findall its s = gs :: findall its r.
Proof.
  intros Hne Hm. unfold findall at 1.
  destruct s as [|c s].
  - apply match_items_length in Hm; [simpl in Hm; lia|assumption].
  - simpl length. cbn [findall_fuel]. rewrite Hm. f_equal.
    apply findall_fuel_enough; [assumption|].
    apply match_items_length in Hm; [simpl in Hm; lia|assumption].
Qed.

End RegexFacts.
Section TokenizerFacts.
Import Regex.

Ltac by_cases c := destruct c as [[] [] [] [] [] [] [] []]; vm_compute; congruence.

Lemma space_not_word c : Chars.is_space c = true -> Chars.is_word c = false.
Proof. by_cases c. Qed.

Lemma is_equals_eq c : Chars.is_equals c = true -> c = equals_sign.
Proof. by_cases c. Qed.

Lemma is_newline_eq c : Chars.is_newline c = true -> c = newline.
Proof. by_cases c. Qed.

Lemma match_many1_greedy p its a b gs r :
  a <> [] -> forallb p a = true ->
  match b with c :: _ => p c = false | [] => True end ->
  match_items its b = Some (gs, r) ->
  match_items (Many1 p :: its) (a ++ b) = Some (a :: gs, r).
Proof.
  intros Hne Ha Hb Hm. cbn [match_items]. rewrite (run_length_app p a b Ha Hb).
  destruct a as [|c a]; [congruence|].
  pose proof (try_counts_first (match_items its) (length a) ((c :: a) ++ b) gs r) as Ht.
  change (S (length a)) with (length (c :: a)) in Ht.
  rewrite drop_app_length, take_app_length in Ht. now apply Ht.
Qed.

Lemma match_one p its c b gs r :
  p c = true -> match_items its b = Some (gs, r) ->
  match_items (One p :: its) (c :: b) = Some ([c] :: gs, r).
Proof. intros Hc Hm. cbn [match_items]. now rewrite Hc, Hm. Qed.

Lemma lstrip_id s :
  match s with c :: _ => Chars.is_space c = false | [] => True end -> lstrip s = s.
Proof. destruct s as [|c s]; simpl; [reflexivity|]. now intros ->. Qed.

Lemma strip_word k :
  k <> [] -> forallb Chars.is_word k = true -> strip k = k.
Proof.
  intros Hne Hk. unfold strip, rstrip.
  assert (Hns : Forall (fun c => Chars.is_space c = false) k).
  { apply Forall_forall. intros c Hc.
    assert (Hw : Chars.is_word c = true).
    { rewrite forallb_forall in Hk. apply Hk. now apply list_elem_of_In. }
    destruct (Chars.is_space c) eqn:Hs; [|reflexivity].
    apply space_not_word in Hs. congruence. }
  rewrite (lstrip_id k).
  - rewrite (lstrip_id (rev k)); [apply rev_involutive|].
    destruct (rev k) as [|c r] eqn:Hr; [exact I|].
    rewrite Forall_forall in Hns. apply Hns. apply list_elem_of_In, in_rev.
    rewrite Hr. now left.
  - destruct k as [|c k]; [exact I|]. now inversion Hns.
Qed.

Lemma match_line (l : srcinfo_line) (rest : list ascii) :
  line_ok l = true ->
  match_items RE_SRCINFO_KEYS (line_text l ++ rest)
  = Some ([l_key l; l_sep1 l; [equals_sign]; l_sep2 l; l_value l; [newline]], rest).
Proof.
  unfold line_ok, line_text, RE_SRCINFO_KEYS. intros H.
  repeat (apply andb_true_iff in H as [H ?]).
  destruct (l_key l) as [|k0 k] eqn:Hk; [discriminate|].
  destruct (l_sep1 l) as [|a0 a] eqn:Ha; [discriminate|].
  destruct (l_sep2 l) as [|b0 b] eqn:Hb; [discriminate|].
  destruct (l_value l) as [|v0 v] eqn:Hv; [discriminate|].
  repeat rewrite <- app_assoc.
  apply match_many1_greedy; [congruence|assumption| |].
  { simpl. apply space_not_word. simpl in *. now destruct (Chars.is_space a0). }
  apply match_many1_greedy; [congruence|assumption|reflexivity|].
  apply (match_one _ _ equals_sign); [reflexivity|].
  apply match_many1_greedy; [congruence|assumption| |].
  { simpl. now destruct (Chars.is_space v0). }
  apply match_many1_greedy; [congruence|assumption|reflexivity|].
  apply (match_one _ _ newline); reflexivity.
Qed.

Lemma RE_SRCINFO_KEYS_items : RE_SRCINFO_KEYS <> [].
Proof. discriminate. Qed.


Lemma tokenize_chars_sound (s : list ascii) :
  Forall (fun kv => exists gs, occurs_in RE_SRCINFO_KEYS s gs /\ kv = field_pair gs)
         (tokenize_chars s).
Proof.
  apply Forall_forall. intros kv Hin. apply list_elem_of_In in Hin.
  unfold tokenize_chars in Hin. apply in_map_iff in Hin as (gs & <- & Hin).
  exists gs. split; [|reflexivity]. now apply findall_fuel_sound in Hin.
Qed.

End TokenizerFacts.


(** ** Dictionaries *)

Section DictFacts.
Context {V : Type}.
Implicit Types (d : dict V) (k : string) (v : V).

Lemma dict_get_set_eq k v d : dict_get k (dict_set k v d) = Some v.
Proof.
  induction d as [|[k' v'] d IH]; simpl.
  - now rewrite String.eqb_refl.
  - destruct (String.eqb_spec k k') as [->|Hne]; simpl.
    + now rewrite String.eqb_refl.
    + destruct (String.eqb_spec k k'); [contradiction|assumption].
Qed.

Lemma dict_get_set_ne k k' v d :
  k <> k' -> dict_get k' (dict_set k v d) = dict_get k' d.
Proof.
  intros Hne. induction d as [|[k0 v0] d IH]; simpl.
  - destruct (String.eqb_spec k' k); [congruence|reflexivity].
  - destruct (String.eqb_spec k k0) as [->|Hk]; simpl.
    + destruct (String.eqb_spec k' k0); [congruence|reflexivity].
    + destruct (String.eqb_spec k' k0); [reflexivity|assumption].
Qed.

Lemma dict_get_None k d : dict_get k d = None <-> k ∉ map fst d.
Proof.
  induction d as [|[k' v'] d IH]; simpl.
  - split; [intros _; apply not_elem_of_nil|reflexivity].
  - rewrite not_elem_of_cons. destruct (String.eqb_spec k k') as [->|Hne].
    + split; [discriminate|intros [? _]; congruence].
    + rewrite IH. tauto.
Qed.

Lemma dict_get_Some_key k v d : dict_get k d = Some v -> k ∈ map fst d.
Proof.
  intros H. destruct (decide (k ∈ map fst d)) as [|Hn]; [assumption|].
  apply dict_get_None in Hn. congruence.
Qed.

Lemma dict_get_elem k v d : dict_get k d = Some v -> (k, v) ∈ d.
Proof.
  induction d as [|[k' v'] d IH]; simpl; [discriminate|].
  destruct (String.eqb_spec k k') as [->|Hne].
  - intros [= ->]. apply list_elem_of_here.
  - intros H. apply list_elem_of_further. auto.
Qed.

Lemma dict_keys_set k v d :
  map fst (dict_set k v d)
  = match dict_get k d with
    | Some _ => map fst d
    | None => map fst d ++ [k]
    end.
Proof.
  induction d as [|[k' v'] d IH]; simpl; [reflexivity|].
  destruct (String.eqb_spec k k') as [->|Hne]; simpl; [reflexivity|].
  rewrite IH. now destruct (dict_get k d).
Qed.

Lemma dict_set_nonempty k v d : nonempty (dict_set k v d) = true.
Proof. destruct d as [|[k' v'] d]; simpl; [reflexivity|]. now destruct (String.eqb k k'). Qed.

Lemma dict_get_map {U : Type} (f : V -> U) k d :
  dict_get k (map (fun kv => (fst kv, f (snd kv))) d) = f <$> dict_get k d.
Proof.
  induction d as [|[k' v'] d IH]; simpl; [reflexivity|].
  now destruct (String.eqb k k').
Qed.

End DictFacts.

(** ** The blocks of [map_srcinfo] *)

Lemma is_boundary_iff key :
is_boundary key = true <-> key = "pkgname" \/ key = "pkgbase".
Proof.
unfold is_boundary, key_fields. rewrite bool_decide_eq_true. set_solver.
Qed.

Lemma boundary_not_known key : is_boundary key = true -> in_known_list key = false.
Proof. rewrite is_boundary_iff. now intros [-> | ->]. Qed.

Lemma block_insert_nonempty key val b : nonempty (block_insert key val b) = true.
Proof. unfold block_insert. destruct (dict_get key b); apply dict_set_nonempty. Qed.

Lemma block_insert_keys key val b :
map fst (block_insert key val b)
= if bool_decide (key ∈ map fst b) then map fst b else map fst b ++ [key].
Proof.
unfold block_insert. destruct (dict_get key b) eqn:Hg; rewrite dict_keys_set, Hg.
- apply dict_get_Some_key in Hg. now rewrite bool_decide_eq_true_2.
- apply dict_get_None in Hg. now rewrite bool_decide_eq_false_2.
Qed.

Lemma values_at_insert_eq key val b :
values_at key (block_insert key val b) = values_at key b ∪ {[ val ]}.
Proof.
unfold values_at, block_insert. destruct (dict_get key b) eqn:Hg;
  rewrite dict_get_set_eq; simpl.
- reflexivity.
- destruct (in_known_list key); simpl; now rewrite (left_id_L ∅ (∪)).
Qed.

Lemma values_at_insert_ne key key' val b :
key <> key' -> values_at key' (block_insert key val b) = values_at key' b.
Proof.
intros Hne. unfold values_at, block_insert.
destruct (dict_get key b); now rewrite dict_get_set_ne.
Qed.

Lemma block_of_pairs_snoc ps f :
block_of_pairs (ps ++ [f]) = block_insert (fst f) (snd f) (block_of_pairs ps).
Proof. unfold block_of_pairs. now rewrite fold_left_app. Qed.

Lemma block_of_pairs_nonempty ps : nonempty (block_of_pairs ps) = nonempty ps.
Proof.
destruct ps as [|f ps] using rev_ind; [reflexivity|].
rewrite block_of_pairs_snoc, block_insert_nonempty. now destruct ps.
Qed.


Lemma block_of_pairs_values ps key val :
val ∈ values_at key (block_of_pairs ps) <-> (key, val) ∈ ps.
Proof.
induction ps as [|[k v] ps IH] using rev_ind.
- unfold values_at. simpl. set_solver.
- rewrite block_of_pairs_snoc, elem_of_app, list_elem_of_singleton. simpl.
  destruct (decide (k = key)) as [->|Hne].
  + rewrite values_at_insert_eq, elem_of_union, elem_of_singleton, IH.
    split; intros [H|H]; auto; [subst; auto|]. inversion H; auto.
  + rewrite values_at_insert_ne by assumption. rewrite IH.
    split; [auto|]. intros [H|H]; [assumption|]. inversion H; congruence.
Qed.

(** ** Segmentation *)

Lemma spec_run_concat ps : forall closed cur,
concat (spec_flush (fold_left spec_seg_step ps (closed, cur)))
= concat closed ++ cur ++ ps.
Proof.
induction ps as [|f ps IH]; intros closed cur.
- unfold spec_flush. simpl. destruct cur; simpl.
  + now rewrite app_nil_r.
  + rewrite concat_app. simpl. now rewrite !app_nil_r.
- cbn [fold_left]. unfold spec_seg_step at 2.
  destruct (nonempty cur && is_boundary (fst f)).
  + rewrite IH, concat_app. simpl. now rewrite app_nil_r, <- app_assoc.
  + rewrite IH. now rewrite <- !app_assoc.
Qed.




Lemma segment_refines ps : forall closed cur,
fold_left (seg_step None) ps (map block_of_pairs closed, block_of_pairs cur)
= (map block_of_pairs (fst (fold_left spec_seg_step ps (closed, cur))),
   block_of_pairs (snd (fold_left spec_seg_step ps (closed, cur)))).
Proof.
induction ps as [|[key val] ps IH]; intros closed cur; [reflexivity|].
cbn [fold_left]. unfold seg_step at 2, spec_seg_step at 2 4.
rewrite block_of_pairs_nonempty. cbn [fst snd field_allowed].
destruct (nonempty cur && is_boundary key) eqn:Hsplit.
- apply andb_true_iff in Hsplit as [_ Hb].
  replace [(key, BStr val)] with (block_of_pairs [(key, val)]).
  + rewrite <- IH. now rewrite map_app.
  + unfold block_of_pairs, block_insert. simpl.
    now rewrite (boundary_not_known key Hb).
- rewrite <- IH. now rewrite block_of_pairs_snoc.
Qed.

Lemma segment_spec_segment ps :
segment None ps = map block_of_pairs (spec_segment ps).
Proof.
unfold segment, spec_segment, spec_flush.
pose proof (segment_refines ps [] []) as H.
change (map block_of_pairs [], block_of_pairs [])
  with (@nil (dict bval), @nil (string * bval)) in H. rewrite H.
rewrite block_of_pairs_nonempty.
destruct (nonempty (snd (fold_left spec_seg_step ps ([], [])))); [|reflexivity].
now rewrite map_app.
Qed.




(** ** Invariants of the blocks *)

Lemma dict_set_Forall {V : Type} (P : string * V -> Prop) k v (d : dict V) :
Forall P d -> P (k, v) -> Forall P (dict_set k v d).
Proof.
intros Hd Hkv. induction d as [|[k' v'] d IH]; simpl.
- constructor; [assumption|constructor].
- inversion Hd; subst. destruct (String.eqb k k'); constructor; auto.
Qed.

Lemma block_insert_unique key val b : unique_keys b -> unique_keys (block_insert key val b).
Proof.
unfold unique_keys. rewrite block_insert_keys. intros Hnd. case_bool_decide as Hin.
- assumption.
- apply NoDup_app. repeat split; [assumption| |apply NoDup_singleton].
  intros x Hx Hx'. apply list_elem_of_singleton in Hx'. congruence.
Qed.

Lemma block_insert_known key val b : known_are_sets b -> known_are_sets (block_insert key val b).
Proof.
unfold known_are_sets, block_insert. intros Hb.
destruct (dict_get key b); apply dict_set_Forall; try assumption; simpl.
- intros _. exact I.
- intros ->. exact I.
Qed.

Lemma block_insert_pkgname key val b :
pkgname_scalar b -> nonempty b = false \/ is_boundary key = false ->
pkgname_scalar (block_insert key val b).
Proof.
unfold pkgname_scalar, block_insert. intros Hb Hc.
destruct (decide (key = "pkgname")) as [->|Hne].
- destruct Hc as [Hc|Hc]; [|discriminate]. destruct b; [|discriminate]. exact I.
- destruct (dict_get key b); now rewrite dict_get_set_ne.
Qed.

Lemma segment_invariant (P : dict bval -> Prop) fields pairs :
P [] ->
(forall k v, is_boundary k = true -> P [(k, BStr v)]) ->
(forall k v b, P b -> nonempty b = false \/ is_boundary k = false ->
               P (block_insert k v b)) ->
Forall P (segment fields pairs).
Proof.
intros Hnil Hseed Hins. unfold segment.
assert (H : forall st, Forall P (fst st) -> P (snd st) ->
          Forall P (fst (fold_left (seg_step fields) pairs st))
          /\ P (snd (fold_left (seg_step fields) pairs st))).
{ induction pairs as [|[key val] pairs IH]; intros [subinfos subinfo] Hs Hc.
  - split; assumption.
  - cbn [fold_left]. simpl in Hs, Hc. unfold seg_step at 2 4.
    destruct (nonempty subinfo && is_boundary key) eqn:Hsplit.
    + apply andb_true_iff in Hsplit as [_ Hb]. apply IH; simpl; [|auto].
      apply Forall_app. split; [assumption|]. constructor; [assumption|constructor].
    + destruct (field_allowed fields key); [|apply IH; assumption].
      apply IH; simpl; [assumption|]. apply Hins; [assumption|].
      apply andb_false_iff in Hsplit. tauto. }
match goal with
| |- context [fold_left (seg_step fields) pairs ?st] =>
    specialize (H st ltac:(constructor) Hnil);
    destruct (fold_left (seg_step fields) pairs st) as [subinfos subinfo]
end.
destruct H as [H1 H2]. simpl in *. destruct (nonempty subinfo); [|assumption].
apply Forall_app. split; [assumption|]. constructor; [assumption|constructor].
Qed.

Lemma segment_unique_keys fields pairs : Forall unique_keys (segment fields pairs).
Proof.
apply segment_invariant.
- apply NoDup_nil_2.
- intros k v _. apply NoDup_singleton.
- intros k v b Hb _. now apply block_insert_unique.
Qed.

Lemma segment_known_sets fields pairs : Forall known_are_sets (segment fields pairs).
Proof.
apply segment_invariant.
- constructor.
- intros k v Hb. constructor; [|constructor]. simpl.
  rewrite (boundary_not_known k Hb). discriminate.
- intros k v b Hb _. now apply block_insert_known.
Qed.

Lemma segment_pkgname_scalar fields pairs : Forall pkgname_scalar (segment fields pairs).
Proof.
apply segment_invariant.
- exact I.
- intros k v _. unfold pkgname_scalar. cbn [dict_get].
  now destruct (String.eqb "pkgname" k).
- intros k v b. apply block_insert_pkgname.
Qed.

(** ** The merge, key by key *)

Lemma merge_items_get fields key items : forall info,
unique_keys items ->
dict_get key (fold_left (merge_item fields) items info)
= if field_allowed fields key then
    match dict_get key items with
    | Some v => Some (merge_value (dict_get key info) v)
    | None => dict_get key info
    end
  else dict_get key info.
Proof.
unfold unique_keys. induction items as [|[k v] items IH]; intros info Hnd.
- simpl. now destruct (field_allowed fields key).
- simpl in Hnd. apply NoDup_cons in Hnd as [Hk Hnd].
  cbn [fold_left]. rewrite IH by assumption. cbn [dict_get].
  destruct (field_allowed fields key) eqn:Hal.
  + destruct (String.eqb_spec key k) as [->|Hne].
    * assert (Hnone : dict_get k items = None) by now apply dict_get_None.
      rewrite Hnone. unfold merge_item. rewrite Hal.
      destruct (dict_get k info) eqn:Hg; now rewrite dict_get_set_eq.
    * assert (Hsame : dict_get key (merge_item fields info (k, v)) = dict_get key info).
      { unfold merge_item. destruct (field_allowed fields k); [|reflexivity].
        destruct (dict_get k info); rewrite dict_get_set_ne; congruence. }
      now rewrite Hsame.
  + unfold merge_item. destruct (String.eqb_spec key k) as [->|Hne].
    * now rewrite Hal.
    * destruct (field_allowed fields k); [|reflexivity].
      destruct (dict_get k info); rewrite dict_get_set_ne; congruence.
Qed.

Lemma merge_blocks_get pkgname fields key blocks : forall info,
Forall unique_keys blocks ->
dict_get key (fold_left (merge_block pkgname fields) blocks info)
= fold_left (merge_key pkgname fields key) blocks (dict_get key info).
Proof.
induction blocks as [|blk blocks IH]; intros info Hu; [reflexivity|].
inversion Hu; subst. cbn [fold_left]. rewrite IH by assumption. f_equal.
unfold merge_block, merge_key. destruct (block_selected pkgname blk); simpl; [|reflexivity].
now apply merge_items_get.
Qed.

Lemma merge_subinfos_get pkgname fields key blocks :
Forall unique_keys blocks ->
dict_get key (merge_subinfos blocks pkgname fields)
= materialize <$> fold_left (merge_key pkgname fields key) blocks None.
Proof.
intros Hu. unfold merge_subinfos. rewrite dict_get_map.
now rewrite merge_blocks_get.
Qed.

(** ** Which blocks enter the merge *)

Lemma block_selected_given target subinfo :
target <> "" -> block_selected (Some target) subinfo = spec_selected target subinfo.
Proof.
intros Hne. unfold block_selected, spec_selected, str_given.
destruct (String.eqb_spec target ""); [contradiction|]. simpl.
destruct (dict_get "pkgname" subinfo) as [[m|s]|]; try reflexivity.
destruct (String.eqb_spec m target) as [->|Hn].
- now rewrite bool_decide_eq_true_2.
- rewrite bool_decide_eq_false_2; [reflexivity|congruence].
Qed.

Lemma merge_blocks_filter target fields subinfos : forall info,
target <> "" ->
fold_left (merge_block (Some target) fields) subinfos info
= fold_left (merge_block None fields)
    (filter (fun s => spec_selected target s = true) subinfos) info.
Proof.
induction subinfos as [|blk subinfos IH]; intros info Hne; [reflexivity|].
cbn [fold_left]. rewrite filter_cons, IH by assumption.
unfold merge_block at 2. rewrite block_selected_given by assumption.
destruct (spec_selected target blk) eqn:Hs.
- rewrite decide_True by reflexivity. reflexivity.
- rewrite decide_False by discriminate. reflexivity.
Qed.

Lemma merge_subinfos_filter target fields subinfos :
target <> "" ->
merge_subinfos subinfos (Some target) fields
= merge_subinfos (filter (fun s => spec_selected target s = true) subinfos) None fields.
Proof. intros Hne. unfold merge_subinfos. now rewrite merge_blocks_filter. Qed.

Lemma elem_of_pkgnames_of n blocks :
n ∈ pkgnames_of blocks
<-> exists blk, blk ∈ blocks /\ dict_get "pkgname" blk = Some (BStr n).
Proof.
unfold pkgnames_of. rewrite elem_of_list_to_set, list_elem_of_omap.
split; intros (blk & Hin & Hg); exists blk; split; try assumption.
- destruct (dict_get "pkgname" blk) as [[m|s]|]; congruence.
- now rewrite Hg.
Qed.

Lemma filter_all {A : Type} (P : A -> Prop) `{forall x, Decision (P x)} (l : list A) :
Forall P l -> filter P l = l.
Proof.
induction 1 as [|x l Hx Hl IH]; [reflexivity|].
rewrite filter_cons, decide_True by assumption. now rewrite IH.
Qed.

Lemma single_pkgname_selects_all target fields pairs :
size (pkgnames_of (segment fields pairs)) = 1 ->
target ∈ pkgnames_of (segment fields pairs) ->
filter (fun s => spec_selected target s = true) (segment fields pairs)
= segment fields pairs.
Proof.
intros Hsize Hin. apply filter_all.
apply size_1_elem_of in Hsize as [x Hx].
pose proof (segment_pkgname_scalar fields pairs) as Hsc.
rewrite Forall_forall in Hsc. apply Forall_forall. intros blk Hblk.
specialize (Hsc blk Hblk). unfold pkgname_scalar in Hsc. unfold spec_selected.
destruct (dict_get "pkgname" blk) as [[n|s]|] eqn:Hg; [|contradiction|reflexivity].
assert (Hn : n ∈ pkgnames_of (segment fields pairs)).
{ apply elem_of_pkgnames_of. eauto. }
apply String.eqb_eq. rewrite Hx in Hin, Hn.
apply elem_of_singleton in Hin, Hn. congruence.
Qed.

Lemma map_srcinfo_pairs_target pairs target fields :
target <> "" ->
map_srcinfo_pairs pairs (Some target) fields
= if bool_decide (target ∈ pkgnames_of (segment fields pairs))
  then merge_subinfos
         (filter (fun s => spec_selected target s = true) (segment fields pairs))
         None fields
  else map_srcinfo_pairs pairs None fields.
Proof.
intros Hne. unfold map_srcinfo_pairs, merge_target, str_given.
destruct (String.eqb_spec target ""); [contradiction|]. cbn [negb orb].
case_bool_decide as Hin; cbn [negb orb].
- destruct (Nat.eqb_spec (size (pkgnames_of (segment fields pairs))) 1) as [Hs|Hs].
  + now rewrite single_pkgname_selects_all.
  + now apply merge_subinfos_filter.
- now rewrite orb_true_r.
Qed.

(** ** Scalars, sets and the values of a key *)

Lemma merge_key_values pkgname fields key blocks : forall o,
bvalues (fold_left (merge_key pkgname fields key) blocks o)
= bvalues o ∪ folded_values pkgname fields key blocks.
Proof.
unfold folded_values.
induction blocks as [|blk blocks IH]; intros o; simpl.
- now rewrite (right_id_L ∅ (∪)).
- rewrite IH, (assoc_L (∪)). f_equal.
  unfold merge_key, values_at.
  destruct (block_selected pkgname blk && field_allowed fields key).
  + destruct (dict_get key blk) as [v|]; simpl.
    * destruct o as [cur|]; simpl; [reflexivity|]. now rewrite (left_id_L ∅ (∪)).
    * now rewrite (right_id_L ∅ (∪)).
  + now rewrite (right_id_L ∅ (∪)).
Qed.

Lemma merge_key_set_stays pkgname fields key blocks : forall s,
exists s', fold_left (merge_key pkgname fields key) blocks (Some (BSet s))
           = Some (BSet s').
Proof.
induction blocks as [|blk blocks IH]; intros s; simpl; [eauto|].
unfold merge_key at 2.
destruct (block_selected pkgname blk && field_allowed fields key); [|apply IH].
destruct (dict_get key blk); simpl; apply IH.
Qed.

Lemma merge_key_set_in pkgname fields key blocks blk s : forall o,
blk ∈ blocks ->
block_selected pkgname blk = true -> field_allowed fields key = true ->
dict_get key blk = Some (BSet s) ->
exists s', fold_left (merge_key pkgname fields key) blocks o = Some (BSet s').
Proof.
intros o Hin Hsel Hal Hg. revert o.
induction blocks as [|blk' blocks IH]; intros o.
- now apply elem_of_nil in Hin.
- simpl. apply elem_of_cons in Hin as [<-|Hin].
  + unfold merge_key at 2. rewrite Hsel, Hal, Hg. simpl.
    destruct o as [cur|]; simpl; apply merge_key_set_stays.
  + now apply IH.
Qed.

Lemma merge_key_known pkgname fields key blocks : forall o,
in_known_list key = true ->
Forall known_are_sets blocks ->
match o with Some (BStr _) => False | _ => True end ->
match fold_left (merge_key pkgname fields key) blocks o with
| Some (BStr _) => False
| _ => True
end.
Proof.
intros o Hk Hb. revert o. induction Hb as [|blk blocks Hblk Hb IH]; intros o Ho.
- assumption.
- simpl. apply IH. unfold merge_key.
  destruct (block_selected pkgname blk && field_allowed fields key); [|assumption].
  destruct (dict_get key blk) as [v|] eqn:Hg; [|assumption].
  apply dict_get_elem in Hg. unfold known_are_sets in Hblk.
  rewrite Forall_forall in Hblk. specialize (Hblk _ Hg Hk). simpl in Hblk.
  destruct o as [cur|]; simpl; [exact I|]. now destruct v.
Qed.

Lemma known_list_iff key : in_known_list key = true <-> key ∈ KNOWN_LIST_FIELDS.
Proof. unfold in_known_list. apply bool_decide_eq_true. Qed.

Lemma map_srcinfo_known_list text target fields key val :
key ∈ KNOWN_LIST_FIELDS ->
dict_get key (map_srcinfo text target fields) = Some val ->
exists l, val = FList l.
Proof.
intros Hk. unfold map_srcinfo, map_srcinfo_pairs.
rewrite merge_subinfos_get by apply segment_unique_keys.
pose proof (merge_key_known
              (merge_target (pkgnames_of (segment fields (tokenize text))) target)
              fields key (segment fields (tokenize text)) None
              (proj2 (known_list_iff key) Hk)
              (segment_known_sets fields (tokenize text)) I) as H.
destruct (fold_left _ _ None) as [[s|s]|]; simpl; try contradiction.
- intros [= <-]. eauto.
- discriminate.
Qed.

Lemma values_at_two key blk a b :
a <> b -> a ∈ values_at key blk -> b ∈ values_at key blk ->
exists s, dict_get key blk = Some (BSet s).
Proof.
unfold values_at. intros Hne Ha Hb.
destruct (dict_get key blk) as [[x|s]|]; simpl in *.
- apply elem_of_singleton in Ha, Hb. congruence.
- eauto.
- now apply not_elem_of_empty in Ha.
Qed.

Lemma elem_of_folded_values pkgname fields key blocks v :
v ∈ folded_values pkgname fields key blocks
<-> exists blk, blk ∈ blocks
      /\ block_selected pkgname blk && field_allowed fields key = true
      /\ v ∈ values_at key blk.
Proof.
unfold folded_values. rewrite elem_of_union_list. split.
- intros (X & HX & Hv). apply list_elem_of_fmap in HX as (blk & -> & Hblk).
  exists blk. destruct (block_selected pkgname blk && field_allowed fields key).
  + auto.
  + now apply not_elem_of_empty in Hv.
- intros (blk & Hblk & Hsel & Hv).
  exists (if block_selected pkgname blk && field_allowed fields key
          then values_at key blk else ∅).
  split; [|now rewrite Hsel].
  apply list_elem_of_fmap. exists blk. auto.
Qed.

Lemma elements_pair (a b : string) : a <> b -> elements ({[ a; b ]} : gset string) ≡ₚ [a; b].
Proof.
intros Hne. rewrite elements_union_singleton by (rewrite elem_of_singleton; congruence).
now rewrite elements_singleton.
Qed.

Lemma map_srcinfo_two_values pairs blk target key a b :
blk ∈ spec_segment pairs ->
block_selected (merge_target (pkgnames_of (segment None pairs)) target)
               (block_of_pairs blk) = true ->
(key, a) ∈ blk -> (key, b) ∈ blk -> a <> b ->
exists l, dict_get key (map_srcinfo_pairs pairs target None) = Some (FList l)
          /\ a ∈ l /\ b ∈ l /\ NoDup l
          /\ ((forall v, (key, v) ∈ pairs -> v = a \/ v = b) -> l ≡ₚ [a; b]).
Proof.
intros Hblk Hsel Ha Hb Hne. unfold map_srcinfo_pairs.
set (tgt := merge_target (pkgnames_of (segment None pairs)) target) in *.
rewrite merge_subinfos_get by apply segment_unique_keys.
assert (Hin : block_of_pairs blk ∈ segment None pairs).
{ rewrite segment_spec_segment. apply list_elem_of_fmap. eauto. }
apply block_of_pairs_values in Ha, Hb.
destruct (values_at_two _ _ _ _ Hne Ha Hb) as [s Hs].
destruct (merge_key_set_in tgt None key _ _ s None Hin Hsel eq_refl Hs) as [S HS].
pose proof (merge_key_values tgt None key (segment None pairs) None) as HV.
rewrite HS in *. simpl in HV. rewrite (left_id_L ∅ (∪)) in HV. simpl.
assert (HaS : a ∈ S).
{ rewrite HV. apply elem_of_folded_values. exists (block_of_pairs blk).
  rewrite Hsel. auto. }
assert (HbS : b ∈ S).
{ rewrite HV. apply elem_of_folded_values. exists (block_of_pairs blk).
  rewrite Hsel. auto. }
exists (elements S). repeat split.
- now apply elem_of_elements.
- now apply elem_of_elements.
- apply NoDup_elements.
- intros Honly. assert (HS2 : S = {[ a; b ]}).
  { apply set_eq. intros v. rewrite elem_of_union, !elem_of_singleton. split.
    - rewrite HV. intros Hv. apply elem_of_folded_values in Hv as (blk' & Hblk' & _ & Hv).
      rewrite segment_spec_segment in Hblk'.
      apply list_elem_of_fmap in Hblk' as (ps & -> & Hps).
      apply block_of_pairs_values in Hv. apply Honly.
      assert (Hc : concat (spec_segment pairs) = pairs).
      { unfold spec_segment. now rewrite spec_run_concat. }
      rewrite <- Hc. apply list_elem_of_In, in_concat. exists ps.
      split; now apply list_elem_of_In.
    - intros [-> | ->]; assumption. }
  rewrite HS2. now apply elements_pair.
Qed.

(** In a record returned by [map_srcinfo] every field of the tuple
  [KNOWN_LIST_FIELDS] that is present holds a list, whatever the number of
  its values.  A field that gets two distinct values [a] and [b] in one
  block that enters the merge holds a list without duplicates that has
  both, never a scalar; when [a] and [b] are the only values the document
  gives the field, the list has exactly these two elements. *)
Theorem multi_valued_fields (text : string) (target : option string)
  (fields : option (gset string)) (key : string) (val : fval)
  (pairs blk : list (string * string)) (target' : option string)
  (key' a b : string) :
key ∈ KNOWN_LIST_FIELDS ->
dict_get key (map_srcinfo text target fields) = Some val ->
blk ∈ spec_segment pairs ->
block_selected (merge_target (pkgnames_of (segment None pairs)) target')
               (block_of_pairs blk) = true ->
(key', a) ∈ blk -> (key', b) ∈ blk -> a <> b ->
(exists l, val = FList l)
/\ exists l, dict_get key' (map_srcinfo_pairs pairs target' None) = Some (FList l)
             /\ a ∈ l /\ b ∈ l /\ NoDup l
             /\ ((forall v, (key', v) ∈ pairs -> v = a \/ v = b) -> l ≡ₚ [a; b]).
Proof.
intros Hk Hg Hblk Hsel Ha Hb Hne. split.
- eapply map_srcinfo_known_list; eassumption.
- now apply map_srcinfo_two_values with (blk := blk).
Qed.

Lemma multi_valued_fields_witness :
"depends" ∈ KNOWN_LIST_FIELDS
/\ dict_get "depends" (map_srcinfo ("depends = x" +:+ nl) None None)
   = Some (FList ["x"])
/\ example_scope ∈ spec_segment example_scope
/\ block_selected
     (merge_target (pkgnames_of (segment None example_scope)) (Some "p"))
     (block_of_pairs example_scope) = true
/\ ("url", "a") ∈ example_scope /\ ("url", "b") ∈ example_scope /\ "a" <> "b"
/\ (exists l, FList ["x"] = FList l)
/\ exists l, dict_get "url" (map_srcinfo_pairs example_scope (Some "p") None)
             = Some (FList l)
             /\ "a" ∈ l /\ "b" ∈ l /\ NoDup l
             /\ ((forall v, ("url", v) ∈ example_scope -> v = "a" \/ v = "b")
                 -> l ≡ₚ ["a"; "b"]).
Proof.
assert (H1 : "depends" ∈ KNOWN_LIST_FIELDS) by (apply known_list_iff; reflexivity).
assert (H2 : dict_get "depends" (map_srcinfo ("depends = x" +:+ nl) None None)
             = Some (FList ["x"])) by reflexivity.
assert (H3 : example_scope ∈ spec_segment example_scope) by apply list_elem_of_here.
assert (H4 : block_selected
               (merge_target (pkgnames_of (segment None example_scope)) (Some "p"))
               (block_of_pairs example_scope) = true) by reflexivity.
assert (H5 : ("url", "a") ∈ example_scope) by (unfold example_scope; repeat constructor).
assert (H6 : ("url", "b") ∈ example_scope) by (unfold example_scope; repeat constructor).
assert (H7 : "a" <> "b") by discriminate.
repeat (split; [assumption|]).
exact (multi_valued_fields ("depends = x" +:+ nl) None None "depends" (FList ["x"])
         example_scope example_scope (Some "p") "url" "a" "b"
         H1 H2 H3 H4 H5 H6 H7).
Defined.

(** C2: the code at the failing input.  Of the checksum fields the tuple
    [KNOWN_LIST_FIELDS] has [sha256sums], [sha256sums_x86_64], [sha512sums]
    and [sha512sums_x86_64], but not [sha256sums_i686] and
    [sha512sums_i686].  Given once, each of these two is returned as a bare
    string, where the [x86_64] member of the same family and the [i686]
    members of the other families are returned as lists of one element. *)
Example checksums_i686_scalar :
  map_srcinfo ("sha256sums_i686 = abc" +:+ nl) None None
  = [ ("sha256sums_i686", FStr "abc") ]
  /\ map_srcinfo ("sha512sums_i686 = abc" +:+ nl) None None
     = [ ("sha512sums_i686", FStr "abc") ]
  /\ map_srcinfo ("sha256sums_x86_64 = abc" +:+ nl) None None
     = [ ("sha256sums_x86_64", FList ["abc"]) ]
  /\ map_srcinfo ("sha512sums_x86_64 = abc" +:+ nl) None None
     = [ ("sha512sums_x86_64", FList ["abc"]) ]
  /\ map_srcinfo ("source_i686 = abc" +:+ nl) None None
     = [ ("source_i686", FList ["abc"]) ]
  /\ map_srcinfo ("depends_i686 = abc" +:+ nl) None None
     = [ ("depends_i686", FList ["abc"]) ]
  /\ in_known_list "sha256sums_i686" = false
  /\ in_known_list "sha512sums_i686" = false.
Proof. repeat (split; [vm_compute; reflexivity|]). vm_compute. reflexivity. Qed.

(** ** Dependency extraction *)

Lemma extract_step_union srcinfo deps attr :
extract_step srcinfo deps attr = deps ∪ field_items (dict_get attr srcinfo).
Proof.
unfold extract_step, field_items. destruct (dict_get attr srcinfo) as [v|].
- destruct (fval_truthy v) eqn:Ht; [reflexivity|].
  assert (Hnil : iter_fval v = []).
  { destruct v as [s|l]; simpl in *.
    - apply negb_false_iff, String.eqb_eq in Ht. now subst.
    - now destruct l. }
  rewrite Hnil. simpl. now rewrite (right_id_L ∅ (∪)).
- now rewrite (right_id_L ∅ (∪)).
Qed.

Lemma extract_fold srcinfo attrs : forall deps,
fold_left (extract_step srcinfo) attrs deps
= deps ∪ ⋃ (map (fun attr => field_items (dict_get attr srcinfo)) attrs).
Proof.
induction attrs as [|attr attrs IH]; intros deps; simpl.
- now rewrite (right_id_L ∅ (∪)).
- now rewrite IH, extract_step_union, (assoc_L (∪)).
Qed.

Lemma extract_union x86 srcinfo :
extract_required_dependencies x86 srcinfo
= ⋃ (map (fun attr => field_items (dict_get attr srcinfo)) (dependency_attrs x86)).
Proof.
unfold extract_required_dependencies. now rewrite extract_fold, (left_id_L ∅ (∪)).
Qed.

Lemma extract_other_field x86 srcinfo attr v :
attr ∉ dependency_attrs x86 ->
extract_required_dependencies x86 (dict_set attr v srcinfo)
= extract_required_dependencies x86 srcinfo.
Proof.
intros Hn. rewrite !extract_union. f_equal. apply map_ext_in.
intros a Ha. apply list_elem_of_In in Ha.
rewrite dict_get_set_ne; [reflexivity|]. intros ->. contradiction.
Qed.

Lemma other_arch_not_read x86 fam :
fam ∈ ["makedepends_"; "depends_"; "checkdepends_"] ->
fam +:+ arch_name (negb x86) ∉ dependency_attrs x86.
Proof.
intros Hf.
destruct x86;
  repeat (apply elem_of_cons in Hf as [->|Hf];
          [apply (bool_decide_unpack _); vm_compute; exact I|]);
  now apply elem_of_nil in Hf.
Qed.

(** C8.  The extraction is the union of the items of the fields
  [makedepends], [depends], [checkdepends] and their variants for the
  architecture of the client, an absent field giving nothing.  A variant
  for the other architecture is never read: setting it changes nothing,
  and a record with [depends_i686] alone gives the empty set on x86_64,
  while [depends] alone is returned on both.  A record with none of the
  six fields gives the empty set.  The function is total. *)
Theorem extract_dependencies (x86 : bool) (srcinfo bare : dict fval)
  (v : fval) (deps : list string) :
(forall attr, attr ∈ dependency_attrs x86 -> dict_get attr bare = None) ->
extract_required_dependencies x86 srcinfo
= ⋃ (map (fun attr => field_items (dict_get attr srcinfo))
         [ "makedepends"; "makedepends_" +:+ arch_name x86;
           "depends"; "depends_" +:+ arch_name x86;
           "checkdepends"; "checkdepends_" +:+ arch_name x86 ])
/\ Forall (fun fam =>
             extract_required_dependencies x86
               (dict_set (fam +:+ arch_name (negb x86)) v srcinfo)
             = extract_required_dependencies x86 srcinfo)
          ["makedepends_"; "depends_"; "checkdepends_"]
/\ extract_required_dependencies true [("depends_i686", FList deps)] = ∅
/\ extract_required_dependencies x86 [("depends", FList deps)] = list_to_set deps
/\ extract_required_dependencies x86 bare = ∅.
Proof.
intros Hbare. split; [|split; [|split; [|split]]].
- apply extract_union.
- apply Forall_forall. intros fam Hf.
  apply extract_other_field. now apply other_arch_not_read.
- reflexivity.
- rewrite extract_union. destruct x86; simpl;
    now rewrite !(left_id_L ∅ (∪)), !(right_id_L ∅ (∪)).
- rewrite extract_union. apply empty_union_list_L, Forall_forall.
  intros X HX. apply list_elem_of_fmap in HX as (attr & -> & Hattr).
  now rewrite (Hbare attr Hattr).
Qed.

Lemma extract_dependencies_witness :
(forall attr, attr ∈ dependency_attrs true -> dict_get attr example_bare = None)
/\ extract_required_dependencies true example_record
   = ⋃ (map (fun attr => field_items (dict_get attr example_record))
            [ "makedepends"; "makedepends_" +:+ arch_name true;
              "depends"; "depends_" +:+ arch_name true;
              "checkdepends"; "checkdepends_" +:+ arch_name true ])
/\ Forall (fun fam =>
             extract_required_dependencies true
               (dict_set (fam +:+ arch_name (negb true)) (FList ["z"]) example_record)
             = extract_required_dependencies true example_record)
          ["makedepends_"; "depends_"; "checkdepends_"]
/\ extract_required_dependencies true [("depends_i686", FList ["d"])] = ∅
/\ extract_required_dependencies true [("depends", FList ["d"])] = list_to_set ["d"]
/\ extract_required_dependencies true example_bare = ∅.
Proof.
assert (H : forall attr, attr ∈ dependency_attrs true ->
                         dict_get attr example_bare = None).
{ intros attr Hattr.
  repeat (apply elem_of_cons in Hattr as [->|Hattr]; [reflexivity|]).
  now apply elem_of_nil in Hattr. }
split; [exact H|].
exact (extract_dependencies true example_record example_bare (FList ["z"]) ["d"] H).
Defined.

(** ** The client *)

Section ClientFacts.

Context {W : Type}.
Variable http_get : string -> W -> result transport_exn (option Response) * W.
Variable http_get_json :
  string -> W -> result transport_exn (option (list info_entry)) * W.
Variable quote : string -> string.

Local Abbreviation lookup_src := (get_src_info http_get http_get_json quote).
Local Abbreviation required := (get_required_dependencies http_get http_get_json quote).
Local Abbreviation info_of := (get_info http_get_json quote).
Local Abbreviation run := (run_ops http_get http_get_json quote).

Implicit Types (c : @client W) (name : string) (real : option string).

(** *** One step of [get_src_info], path by path *)

Lemma get_src_info_hit fuel name real c :
  record_truthy (srcinfo_cache c !! name) = true ->
  lookup_src (S fuel) name real c
  = Some (Ok (srcinfo_cache c !! name), record (EvLookup name real) c).
Proof. intros H. simpl. now rewrite H. Qed.

Lemma get_src_info_raise fuel name real c e w1 :
  record_truthy (srcinfo_cache c !! name) = false ->
  http_get (URL_SRC_INFO +:+ quote name) (world c) = (Raise e, w1) ->
  lookup_src (S fuel) name real c
  = Some (Raise e,
          set_world w1 (record (EvGet (URL_SRC_INFO +:+ quote name))
                               (record (EvLookup name real) c))).
Proof. intros H1 H2. simpl. now rewrite H1, H2. Qed.

Lemma get_src_info_content fuel name real c res w1 :
  record_truthy (srcinfo_cache c !! name) = false ->
  http_get (URL_SRC_INFO +:+ quote name) (world c) = (Ok res, w1) ->
  has_content res = true ->
  let srcinfo := map_srcinfo (response_text res)
                   (if str_given real then real else Some name) None in
  let c1 := set_world w1 (record (EvGet (URL_SRC_INFO +:+ quote name))
                                 (record (EvLookup name real) c)) in
  lookup_src (S fuel) name real c
  = Some (Ok (Some srcinfo),
          if nonempty srcinfo then cache_store name srcinfo c1 else c1).
Proof. intros H1 H2 H3. simpl. now rewrite H1, H2, H3. Qed.

Lemma get_info_after name real c w1 infos w2 :
  http_get_json (URL_INFO +:+ map_names_as_queries quote [name]) w1 = (infos, w2) ->
  info_of [name]
    (set_world w1 (record (EvGet (URL_SRC_INFO +:+ quote name))
                          (record (EvLookup name real) c)))
  = (match infos with Ok (Some l) => l | _ => [] end, after_miss quote name real w1 w2 c).
Proof.
  intros H. unfold get_info. cbn [world set_world]. rewrite H.
  destruct infos as [[l|]|e]; reflexivity.
Qed.

Lemma get_src_info_absent fuel name real c res w1 infos w2 :
  record_truthy (srcinfo_cache c !! name) = false ->
  http_get (URL_SRC_INFO +:+ quote name) (world c) = (Ok res, w1) ->
  has_content res = false ->
  http_get_json (URL_INFO +:+ map_names_as_queries quote [name]) w1 = (infos, w2) ->
  match infos with
  | Ok (Some (info :: _)) => based_on_another info = false
  | _ => True
  end ->
  lookup_src (S fuel) name real c = Some (Ok None, after_miss quote name real w1 w2 c).
Proof.
  intros H1 H2 H3 H4 H5. cbn [get_src_info]. cbn [srcinfo_cache record world].
  rewrite H1, H2, H3. rewrite (get_info_after name real c w1 infos w2 H4).
  destruct infos as [[[|info l]|]|e]; try reflexivity. now rewrite H5.
Qed.

Lemma get_src_info_fallback fuel name real c res w1 info rest w2 :
  record_truthy (srcinfo_cache c !! name) = false ->
  http_get (URL_SRC_INFO +:+ quote name) (world c) = (Ok res, w1) ->
  has_content res = false ->
  http_get_json (URL_INFO +:+ map_names_as_queries quote [name]) w1
  = (Ok (Some (info :: rest)), w2) ->
  based_on_another info = true ->
  lookup_src (S fuel) name real c
  = match lookup_src fuel (default "" (PackageBase info)) (Name info)
            (after_miss quote name real w1 w2 c) with
    | Some (Ok srcinfo, c2) =>
        Some (Ok srcinfo,
              if record_truthy srcinfo
              then cache_store name (default [] srcinfo) c2 else c2)
    | Some (Raise e, c2) => Some (Raise e, c2)
    | None => None
    end.
Proof.
  intros H1 H2 H3 H4 H5. cbn [get_src_info]. cbn [srcinfo_cache record world].
  rewrite H1, H2, H3.
  rewrite (get_info_after name real c w1 (Ok (Some (info :: rest))) w2 H4).
  now rewrite H5.
Qed.

(** Every way a call of [get_src_info] that returns can have gone. *)
Lemma get_src_info_cases fuel name real c res c' :
  lookup_src (S fuel) name real c = Some (res, c') ->
  (record_truthy (srcinfo_cache c !! name) = true
   /\ res = Ok (srcinfo_cache c !! name) /\ c' = record (EvLookup name real) c)
  \/ (record_truthy (srcinfo_cache c !! name) = false
      /\ exists r w1, http_get (URL_SRC_INFO +:+ quote name) (world c) = (r, w1)
         /\ ((exists e, r = Raise e /\ res = Raise e
                        /\ c' = after_fetch quote name real w1 c)
             \/ (exists content, r = Ok content /\ has_content content = true
                 /\ res = Ok (Some (map_srcinfo (response_text content)
                                      (if str_given real then real else Some name)
                                      None))
                 /\ c' = if nonempty (map_srcinfo (response_text content)
                                        (if str_given real then real else Some name)
                                        None)
                         then cache_store name
                                (map_srcinfo (response_text content)
                                   (if str_given real then real else Some name) None)
                                (after_fetch quote name real w1 c)
                         else after_fetch quote name real w1 c)
             \/ (exists content infos w2, r = Ok content /\ has_content content = false
                 /\ http_get_json (URL_INFO +:+ map_names_as_queries quote [name]) w1
                    = (infos, w2)
                 /\ ((match infos with
                       | Ok (Some (info :: _)) => based_on_another info = false
                       | _ => True
                       end
                       /\ res = Ok None /\ c' = after_miss quote name real w1 w2 c)
                     \/ (exists info rest res2 c2,
                           infos = Ok (Some (info :: rest))
                           /\ based_on_another info = true
                           /\ lookup_src fuel (default "" (PackageBase info)) (Name info)
                                 (after_miss quote name real w1 w2 c) = Some (res2, c2)
                           /\ match res2 with
                              | Ok srcinfo =>
                                  res = Ok srcinfo
                                  /\ c' = if record_truthy srcinfo
                                          then cache_store name (default [] srcinfo) c2
                                          else c2
                              | Raise e => res = Raise e /\ c' = c2
                              end))))).
Proof.
  intros H.
  destruct (record_truthy (srcinfo_cache c !! name)) eqn:Hhit.
  { left. rewrite get_src_info_hit in H by assumption. now inversion H. }
  right. split; [reflexivity|].
  destruct (http_get (URL_SRC_INFO +:+ quote name) (world c)) as [r w1] eqn:Hget.
  exists r, w1. split; [reflexivity|].
  destruct r as [content|e].
  2:{ left. rewrite (get_src_info_raise _ _ _ _ _ _ Hhit Hget) in H.
      inversion H. eauto. }
  right. destruct (has_content content) eqn:Hc.
  { left. rewrite (get_src_info_content _ _ _ _ _ _ Hhit Hget Hc) in H.
    inversion H. exists content. auto. }
  right.
  destruct (http_get_json (URL_INFO +:+ map_names_as_queries quote [name]) w1)
    as [infos w2] eqn:Hjson.
  exists content, infos, w2.
  split; [reflexivity|split; [assumption|split; [reflexivity|]]].
  assert (Hplain : match infos with
                   | Ok (Some (info :: _)) => based_on_another info = false
                   | _ => True
                   end ->
                   (match infos with
                    | Ok (Some (info :: _)) => based_on_another info = false
                    | _ => True
                    end /\ res = Ok None /\ c' = after_miss quote name real w1 w2 c)).
  { intros Hb. rewrite (get_src_info_absent _ _ _ _ _ _ _ _ Hhit Hget Hc Hjson Hb) in H.
    inversion H. auto. }
  destruct infos as [[[|info rest]|]|e]; try (left; now apply Hplain).
  destruct (based_on_another info) eqn:Hb; [|left; now apply Hplain].
  right. rewrite (get_src_info_fallback _ _ _ _ _ _ _ _ _ Hhit Hget Hc Hjson Hb) in H.
  destruct (lookup_src fuel (default "" (PackageBase info)) (Name info)
              (after_miss quote name real w1 w2 c)) as [[res2 c2]|] eqn:Hrec;
    [|discriminate].
  exists info, rest, res2, c2.
  split; [reflexivity|split; [assumption|split; [assumption|]]].
  destruct res2 as [srcinfo|e]; inversion H; subst; split; reflexivity.
Qed.

(** *** What a call leaves behind *)

Ltac lookup_cases H :=
  apply get_src_info_cases in H
    as [(Hhit & -> & ->)
       | (Hhit & r & w1 & Hget &
          [(e & -> & -> & ->)
          | [(content & -> & Hc & -> & ->)
            | (content & infos & w2 & -> & Hc & Hjson &
               [(Hb & -> & ->)
               | (info & rest & res2 & c2 & -> & Hb & Hrec & Hres)])]])].



(** What the cache holds under a name before a call that returns a record
    for another reason than a hit, it still holds afterwards: a non-empty
    entry is never replaced. *)
Lemma get_src_info_cache_kept fuel : forall name real c res c' n (d : dict fval),
  lookup_src fuel name real c = Some (res, c') ->
  srcinfo_cache c !! n = Some d -> nonempty d = true ->
  srcinfo_cache c' !! n = Some d.
Proof.
  induction fuel as [|fuel IH]; intros name real c res c' n d H Hn Hd; [discriminate|].
  assert (Hother : record_truthy (srcinfo_cache c !! name) = false -> n <> name).
  { intros Hmiss Heq. subst. rewrite Hn in Hmiss. simpl in Hmiss. congruence. }
  lookup_cases H; try assumption.
  - destruct (nonempty (map_srcinfo _ _ _)); [|assumption].
    simpl. rewrite lookup_insert_ne; [assumption|]. intros Heq. now apply Hother.
  - apply (IH _ _ _ _ _ n d) in Hrec; [|assumption|assumption].
    destruct res2 as [srcinfo|e]; destruct Hres as [-> ->]; [|assumption].
    destruct (record_truthy srcinfo); [|assumption].
    simpl. rewrite lookup_insert_ne; [assumption|]. intros Heq. now apply Hother.
Qed.

(** A returned non-empty record is in the cache under the queried name. *)
Lemma get_src_info_cached fuel name real c (d : dict fval) c' :
  lookup_src fuel name real c = Some (Ok (Some d), c') ->
  nonempty d = true ->
  srcinfo_cache c' !! name = Some d.
Proof.
  destruct fuel as [|fuel]; intros H Hd; [discriminate|].
  remember (Ok (Some d)) as res eqn:Hres0.
  lookup_cases H; try discriminate.
  - now injection Hres0 as <-.
  - injection Hres0 as <-. rewrite Hd. simpl. apply lookup_insert_eq.
  - destruct res2 as [srcinfo|e]; destruct Hres as [-> ->]; [|discriminate].
    injection Hres0 as ->. simpl. rewrite Hd. simpl. apply lookup_insert_eq.
Qed.

(** A call starts its trace with its lookup, and with the fetch of the
    document when the cache has no record for the name. *)
Lemma get_src_info_trace fuel name real c res c' :
  lookup_src fuel name real c = Some (res, c') ->
  exists rest,
    trace c' = trace c ++ EvLookup name real :: rest
    /\ (record_truthy (srcinfo_cache c !! name) = false ->
        exists rest', rest = EvGet (URL_SRC_INFO +:+ quote name) :: rest').
Proof.
  revert name real c res c'.
  induction fuel as [|fuel IH]; intros name real c res c' H; [discriminate|].
  lookup_cases H.
  - exists []. split; [reflexivity|congruence].
  - exists [EvGet (URL_SRC_INFO +:+ quote name)]. simpl.
    rewrite <- app_assoc. split; [reflexivity|eauto].
  - exists [EvGet (URL_SRC_INFO +:+ quote name)].
    split; [|eauto]. destruct (nonempty _); simpl; now rewrite <- app_assoc.
  - eexists. simpl. rewrite <- !app_assoc. simpl. split; [reflexivity|eauto].
  - apply IH in Hrec as (rest2 & Ht & _).
    assert (Htr : trace c' = trace c2).
    { destruct res2 as [srcinfo|e]; destruct Hres as [-> ->]; [|reflexivity].
      now destruct (record_truthy srcinfo). }
    rewrite Htr, Ht. simpl. rewrite <- !app_assoc. simpl.
    eexists. split; [reflexivity|eauto].
Qed.

(** *** [get_required_dependencies] and sequences of calls *)

Lemma required_state fuel name c r c' :
  required fuel name c = Some (r, c') ->
  exists res, lookup_src fuel name None c = Some (res, c').
Proof.
  unfold get_required_dependencies.
  destruct (lookup_src fuel name None c) as [[[info|e] c1]|]; [| |discriminate].
  - destruct (record_truthy info); intros [= <- <-]; eauto.
  - intros [= <- <-]; eauto.
Qed.


Lemma run_ops_cache_kept fuel ops : forall c c' n (d : dict fval),
  forallb (fun o => negb (is_clear o)) ops = true ->
  run fuel ops c = Some c' ->
  srcinfo_cache c !! n = Some d -> nonempty d = true ->
  srcinfo_cache c' !! n = Some d.
Proof.
  induction ops as [|[name real|name|] ops IH]; intros c c' n d Hops H Hn Hd;
    simpl in H, Hops.
  - now injection H as <-.
  - destruct (lookup_src fuel name real c) as [[res c1]|] eqn:Hl; [|discriminate].
    apply (IH _ _ _ _ Hops H); [|assumption].
    eapply get_src_info_cache_kept; eassumption.
  - destruct (required fuel name c) as [[res c1]|] eqn:Hr; [|discriminate].
    apply required_state in Hr as [res' Hl].
    apply (IH _ _ _ _ Hops H); [|assumption].
    eapply get_src_info_cache_kept; eassumption.
  - discriminate.
Qed.


Lemma fetches_lookup t name real : fetches (t ++ [EvLookup name real]) = fetches t.
Proof. unfold fetches. rewrite omap_app. simpl. apply app_nil_r. Qed.

Lemma based_on_another_names info iname base :
  Name info = Some iname -> PackageBase info = Some base ->
  iname <> "" -> base <> "" -> iname <> base ->
  based_on_another info = true.
Proof.
  intros Hn Hb Hi Hbn Hne. unfold based_on_another. rewrite Hn, Hb. simpl.
  destruct (String.eqb_spec iname ""); [contradiction|].
  destruct (String.eqb_spec base ""); [contradiction|]. simpl.
  rewrite bool_decide_eq_false_2; [reflexivity|congruence].
Qed.

(** *** The claims about the client *)

Lemma lookups_app t1 t2 : lookups (t1 ++ t2) = lookups t1 ++ lookups t2.
Proof. unfold lookups. apply omap_app. Qed.

Lemma fallback_trace fuel name real c res w1 info rest w2 iname base out c' :
  record_truthy (srcinfo_cache c !! name) = false ->
  http_get (URL_SRC_INFO +:+ quote name) (world c) = (Ok res, w1) ->
  has_content res = false ->
  http_get_json (URL_INFO +:+ map_names_as_queries quote [name]) w1
  = (Ok (Some (info :: rest)), w2) ->
  based_on_another info = true ->
  Name info = Some iname -> PackageBase info = Some base ->
  lookup_src (S fuel) name real c = Some (out, c') ->
  exists more,
    lookups (trace c')
    = lookups (trace c) ++ (name, real) :: (base, Some iname) :: more.
Proof.
  intros Hmiss Hget Hc Hjson Hbased Hn Hb H.
  rewrite (get_src_info_fallback fuel name real c res w1 info rest w2
             Hmiss Hget Hc Hjson Hbased) in H.
  rewrite Hn, Hb in H. cbn [default from_option id] in H.
  destruct (lookup_src fuel base (Some iname) (after_miss quote name real w1 w2 c))
    as [[res2 c2]|] eqn:Hrec; [|discriminate].
  apply get_src_info_trace in Hrec as (rest2 & Ht & _).
  assert (Htr : trace c' = trace c2).
  { destruct res2 as [srcinfo|e]; injection H as <- <-; [|reflexivity].
    now destruct (record_truthy srcinfo). }
  rewrite Htr, Ht. exists (lookups rest2).
  unfold after_miss, after_fetch. cbn [trace record set_world].
  rewrite !lookups_app. cbn. rewrite !app_nil_r, <- app_assoc. reflexivity.
Qed.

(** The recursion goes as deep as the chain of reported bases is long: a
    call limited to fewer levels than the chain has links does not return. *)
Lemma base_chain_runs_out (bases : list string) : forall start real c depth,
  base_chain http_get http_get_json quote start bases ->
  Forall (fun n => record_truthy (srcinfo_cache c !! n) = false) (start :: bases) ->
  depth <= length bases ->
  lookup_src depth start real c = None.
Proof.
  induction bases as [|b bases IH]; intros start real c depth Hch Hmiss Hd.
  - simpl in Hd. assert (depth = 0) as -> by lia. reflexivity.
  - destruct depth as [|depth]; [reflexivity|].
    destruct Hch as [Hrep Hch].
    destruct (Hrep (world c))
      as (res & w1 & info & rest & w2 & Hget & Hc & Hjson & Hbased & Hbase).
    apply Forall_cons in Hmiss as [Hm0 Hmiss].
    rewrite (get_src_info_fallback depth start real c res w1 info rest w2
               Hm0 Hget Hc Hjson Hbased).
    rewrite Hbase. cbn [default from_option id].
    rewrite (IH b (Name info) (after_miss quote start real w1 w2 c) depth Hch);
      [reflexivity|exact Hmiss|simpl in Hd; lia].
Qed.

(** C3 (amended).  When the cache has no record for the name, the fetch of
    its document gives no content and the first entry of the info endpoint
    has a non-empty [Name] that differs from its non-empty [PackageBase],
    the lookup makes one recursive call of its own, for the base name with
    the reported name as [real_name], and returns what that call returns,
    whatever that is: a record, which it stores under the queried name when
    it is not empty, no record, or the exception that call raises.  That
    call is a lookup like any other and falls back in turn: along a chain
    of names, each without cached record and without document and reported
    as based on the next, the recursion goes as deep as the chain is long,
    so the code sets no bound on the levels of indirection.  When the base
    has no cached record and its document is fetched with content, the
    recursive lookup is the only one, the two documents are the only ones
    fetched, and the record is the base's document merged for the reported
    name: restricted to the blocks of that sub-package and the blocks
    without a [pkgname] when the document declares it, merged whole
    otherwise. *)
Theorem fallback_lookup (fuel : nat) name real c
    (res : option Response) (w1 : W) (info : info_entry) (rest : list info_entry)
    (w2 : W) (iname base : string) :
  record_truthy (srcinfo_cache c !! name) = false ->
  http_get (URL_SRC_INFO +:+ quote name) (world c) = (Ok res, w1) ->
  has_content res = false ->
  http_get_json (URL_INFO +:+ map_names_as_queries quote [name]) w1
  = (Ok (Some (info :: rest)), w2) ->
  Name info = Some iname -> PackageBase info = Some base ->
  iname <> "" -> base <> "" -> iname <> base ->
  (forall fuel',
      lookup_src (S fuel') name real c
      = match lookup_src fuel' base (Some iname) (after_miss quote name real w1 w2 c) with
        | Some (Ok srcinfo, c2) =>
            Some (Ok srcinfo,
                  if record_truthy srcinfo
                  then cache_store name (default [] srcinfo) c2 else c2)
        | Some (Raise e, c2) => Some (Raise e, c2)
        | None => None
        end)
  /\ (forall fuel' out c',
        lookup_src (S fuel') name real c = Some (out, c') ->
        exists more,
          lookups (trace c')
          = lookups (trace c) ++ (name, real) :: (base, Some iname) :: more)
  /\ (forall (bases : list string) start real0 c0 depth,
        base_chain http_get http_get_json quote start bases ->
        Forall (fun n => record_truthy (srcinfo_cache c0 !! n) = false)
               (start :: bases) ->
        depth <= length bases ->
        lookup_src depth start real0 c0 = None)
  /\ (forall (res_b : option Response) (w3 : W),
        record_truthy (srcinfo_cache c !! base) = false ->
        http_get (URL_SRC_INFO +:+ quote base) w2 = (Ok res_b, w3) ->
        has_content res_b = true ->
        (exists c',
           lookup_src (S (S fuel)) name real c
           = Some (Ok (Some (map_srcinfo (response_text res_b) (Some iname) None)), c')
           /\ lookups (trace c') = lookups (trace c) ++ [(name, real); (base, Some iname)]
           /\ fetches (trace c')
              = fetches (trace c)
                ++ [URL_SRC_INFO +:+ quote name; URL_SRC_INFO +:+ quote base])
        /\ map_srcinfo (response_text res_b) (Some iname) None
           = if bool_decide
                  (iname ∈ pkgnames_of (segment None (tokenize (response_text res_b))))
             then merge_subinfos
                    (filter (fun s => spec_selected iname s = true)
                            (segment None (tokenize (response_text res_b))))
                    None None
             else map_srcinfo (response_text res_b) None None).
Proof.
  intros Hmiss Hget Hc Hjson Hn Hb Hi Hbn Hne.
  pose proof (based_on_another_names info iname base Hn Hb Hi Hbn Hne) as Hbased.
  assert (Hstep : forall fuel',
      lookup_src (S fuel') name real c
      = match lookup_src fuel' base (Some iname) (after_miss quote name real w1 w2 c) with
        | Some (Ok srcinfo, c2) =>
            Some (Ok srcinfo,
                  if record_truthy srcinfo
                  then cache_store name (default [] srcinfo) c2 else c2)
        | Some (Raise e, c2) => Some (Raise e, c2)
        | None => None
        end).
  { intros fuel'.
    rewrite (get_src_info_fallback fuel' name real c res w1 info rest w2
               Hmiss Hget Hc Hjson Hbased).
    now rewrite Hn, Hb. }
  split; [exact Hstep|]. split; [|split].
  - intros fuel' out c' H.
    exact (fallback_trace fuel' name real c res w1 info rest w2 iname base out c'
             Hmiss Hget Hc Hjson Hbased Hn Hb H).
  - intros bases start real0 c0 depth. apply base_chain_runs_out.
  - intros res_b w3 Hmiss_b Hget_b Hc_b. split.
    + rewrite Hstep.
      rewrite (get_src_info_content fuel base (Some iname)
                 (after_miss quote name real w1 w2 c) res_b w3 Hmiss_b Hget_b Hc_b).
      assert (Hgiven : str_given (Some iname) = true).
      { simpl. now destruct (String.eqb_spec iname ""). }
      rewrite Hgiven. eexists. split; [reflexivity|].
      unfold lookups, fetches. simpl.
      destruct (nonempty (map_srcinfo (response_text res_b) (Some iname) None));
        simpl; split; rewrite !omap_app; simpl;
        repeat (rewrite app_nil_r || rewrite <- app_assoc); reflexivity.
    + unfold map_srcinfo. now apply map_srcinfo_pairs_target.
Qed.

(** C4 (amended).  When a lookup has returned a non-empty record, then
    after any further calls that do not clear the cache a lookup for the
    same name returns that record from the cache: it fetches nothing and
    leaves the world as it is. *)
Theorem second_lookup_hits_cache (fuel fuel' fuel'' : nat) name real real' c
    (d : dict fval) c1 (ops : list op) c2 :
  lookup_src fuel name real c = Some (Ok (Some d), c1) ->
  nonempty d = true ->
  forallb (fun o => negb (is_clear o)) ops = true ->
  run fuel' ops c1 = Some c2 ->
  lookup_src (S fuel'') name real' c2
  = Some (Ok (Some d), record (EvLookup name real') c2)
  /\ fetches (trace (record (EvLookup name real') c2)) = fetches (trace c2)
  /\ world (record (EvLookup name real') c2) = world c2.
Proof.
  intros Hl Hd Hops Hrun.
  pose proof (get_src_info_cached _ _ _ _ _ _ Hl Hd) as Hc1.
  pose proof (run_ops_cache_kept _ _ _ _ _ _ Hops Hrun Hc1 Hd) as Hc2.
  split; [|split; [apply fetches_lookup|reflexivity]].
  rewrite get_src_info_hit; rewrite Hc2; [reflexivity|assumption].
Qed.



End ClientFacts.

(** ** The claims about the client on the example world *)

Lemma chain_reported_bases :
  base_chain (table_get chain_docs) (table_get_json chain_infos) no_quote "a" chain_names.
Proof.
  split; [|split; [|exact I]]; intros [].
  - exists None, tt, (entry "a" "b"), [], tt. repeat split; reflexivity.
  - exists None, tt, (entry "b" "c"), [], tt. repeat split; reflexivity.
Qed.

Lemma fallback_lookup_witness :
record_truthy (srcinfo_cache (new_client true tt) !! "b") = false
/\ table_get chain_docs (URL_SRC_INFO +:+ no_quote "b") tt = (Ok None, tt)
/\ table_get_json chain_infos (URL_INFO +:+ map_names_as_queries no_quote ["b"]) tt
   = (Ok (Some [entry "b" "c"]), tt)
/\ table_get chain_docs (URL_SRC_INFO +:+ no_quote "c") tt = (Ok chain_response, tt)
/\ (exists c',
      chain_lookup 2 "b" None (new_client true tt)
      = Some (Ok (Some (map_srcinfo (response_text chain_response) (Some "b") None)), c')
      /\ lookups (trace c')
         = lookups (trace (new_client true tt)) ++ [("b", None); ("c", Some "b")]
      /\ fetches (trace c')
         = fetches (trace (new_client true tt))
           ++ [URL_SRC_INFO +:+ no_quote "b"; URL_SRC_INFO +:+ no_quote "c"])
/\ map_srcinfo (response_text chain_response) (Some "b") None
   = (if bool_decide
          ("b" ∈ pkgnames_of (segment None (tokenize (response_text chain_response))))
     then merge_subinfos
            (filter (fun s => spec_selected "b" s = true)
                    (segment None (tokenize (response_text chain_response))))
            None None
     else map_srcinfo (response_text chain_response) None None)
/\ base_chain (table_get chain_docs) (table_get_json chain_infos) no_quote "a" chain_names
/\ chain_lookup 2 "a" None (new_client true tt) = None.
Proof.
assert (H1 : record_truthy (srcinfo_cache (new_client true tt) !! "b") = false)
  by reflexivity.
assert (H2 : table_get chain_docs (URL_SRC_INFO +:+ no_quote "b") tt = (Ok None, tt))
  by reflexivity.
assert (H3 : table_get_json chain_infos
               (URL_INFO +:+ map_names_as_queries no_quote ["b"]) tt
             = (Ok (Some [entry "b" "c"]), tt)) by reflexivity.
assert (H4 : table_get chain_docs (URL_SRC_INFO +:+ no_quote "c") tt
             = (Ok chain_response, tt)) by reflexivity.
assert (H5 : "b" <> "") by discriminate.
assert (H6 : "c" <> "") by discriminate.
assert (H7 : "b" <> "c") by discriminate.
assert (H8 : Forall (fun n => record_truthy
                                (srcinfo_cache (new_client true tt) !! n) = false)
                    ("a" :: chain_names)) by (repeat constructor).
destruct (fallback_lookup (table_get chain_docs) (table_get_json chain_infos) no_quote
            0 "b" None (new_client true tt) None tt (entry "b" "c") [] tt "b" "c"
            H1 H2 eq_refl H3 eq_refl eq_refl H5 H6 H7)
  as (_ & _ & Hdeep & Hbase).
destruct (Hbase chain_response tt H1 H4 eq_refl) as [Hrun Hmerge].
repeat (split; [assumption|]).
split; [exact chain_reported_bases|].
exact (Hdeep chain_names "a" None (new_client true tt) 2 chain_reported_bases H8
         (le_n 2)).
Defined.

(** C3 as stated fails: the document of [a] is absent and the info endpoint
  reports [a] as based on [b]; the recursive lookup for [b] finds no
  document either and falls back to [c]: two recursive lookups, two levels
  of indirection. *)
Lemma get_src_info_two_levels :
exists (d : dict fval) (c' : @client unit),
  table_get chain_docs (src_url "a") tt = (Ok None, tt)
  /\ table_get_json chain_infos (info_url "a") tt = (Ok (Some [entry "a" "b"]), tt)
  /\ based_on_another (entry "a" "b") = true
  /\ chain_lookup 3 "a" None (new_client true tt) = Some (Ok (Some d), c')
  /\ lookups (trace c') = [("a", None); ("b", Some "a"); ("c", Some "b")].
Proof.
do 2 eexists. split; [reflexivity|]. split; [reflexivity|]. split; [reflexivity|].
split; [vm_compute; reflexivity|]. reflexivity.
Qed.

Lemma second_lookup_hits_cache_witness :
chain_lookup 3 "c" None (new_client true tt) = Some (Ok (Some chain_record), chain_client_1)
/\ nonempty chain_record = true
/\ forallb (fun o => negb (is_clear o)) chain_ops = true
/\ run_ops (table_get chain_docs) (table_get_json chain_infos) no_quote
     5 chain_ops chain_client_1 = Some chain_client_2
/\ chain_lookup 1 "c" (Some "x") chain_client_2
   = Some (Ok (Some chain_record), record (EvLookup "c" (Some "x")) chain_client_2)
/\ fetches (trace (record (EvLookup "c" (Some "x")) chain_client_2))
   = fetches (trace chain_client_2)
/\ world (record (EvLookup "c" (Some "x")) chain_client_2) = world chain_client_2.
Proof.
assert (H1 : chain_lookup 3 "c" None (new_client true tt)
             = Some (Ok (Some chain_record), chain_client_1))
  by (vm_compute; reflexivity).
assert (H2 : nonempty chain_record = true) by (vm_compute; reflexivity).
assert (H3 : forallb (fun o => negb (is_clear o)) chain_ops = true) by reflexivity.
assert (H4 : run_ops (table_get chain_docs) (table_get_json chain_infos) no_quote
               5 chain_ops chain_client_1 = Some chain_client_2)
  by (vm_compute; reflexivity).
repeat (split; [assumption|]).
exact (second_lookup_hits_cache (table_get chain_docs) (table_get_json chain_infos)
         no_quote 3 5 0 "c" None (Some "x") (new_client true tt)
         chain_record chain_client_1 chain_ops chain_client_2 H1 H2 H3 H4).
Defined.

(** C4 as stated fails: when nothing is found for a name, nothing is cached,
  and the second lookup fetches the document again. *)
Lemma second_lookup_fetches_again :
exists c1 c2 : @client unit,
  get_src_info (table_get []) (table_get_json []) no_quote 1 "foo" None
    (new_client true tt) = Some (Ok None, c1)
  /\ get_src_info (table_get []) (table_get_json []) no_quote 1 "foo" None c1
     = Some (Ok None, c2)
  /\ fetches (trace c1) = [src_url "foo"]
  /\ fetches (trace c2) = [src_url "foo"; src_url "foo"].
Proof.
do 2 eexists. split; [vm_compute; reflexivity|].
split; [vm_compute; reflexivity|]. split; reflexivity.
Qed.

(** C5: the code at the failing input.  Without a connection the fetch of
  the document raises, [get_src_info] lets the exception through and so
  does [get_required_dependencies]; [get_info] on the same transport
  returns the empty list. *)
Example get_src_info_connection_error :
get_src_info offline_get offline_get_json no_quote 1 "foo" None (new_client true tt)
= Some (Raise ConnectionError, after_fetch no_quote "foo" None tt (new_client true tt))
/\ fst <$> get_required_dependencies offline_get offline_get_json no_quote 1 "foo"
             (new_client true tt)
   = Some (Raise (TransportRaised ConnectionError))
/\ fst (get_info offline_get_json no_quote ["foo"] (new_client true tt)) = [].
Proof. split; [reflexivity|]. split; reflexivity. Qed.




(** ** Further properties of the tokenizer *)

Lemma tokenize_chars_app_lines (lines : list srcinfo_line) (rest : list ascii) :
  forallb line_ok lines = true ->
  tokenize_chars (concat (map line_text lines) ++ rest)
  = map (fun l => (l_key l, strip (l_value l))) lines ++ tokenize_chars rest.
Proof.
  unfold tokenize_chars. induction lines as [|l lines IH]; intros H.
  - reflexivity.
  - simpl in H. apply andb_true_iff in H as [Hl H]. simpl.
    rewrite <- app_assoc.
    rewrite (findall_match _ _ _ _ RE_SRCINFO_KEYS_items (match_line l _ Hl)).
    simpl. rewrite IH by assumption. f_equal. unfold field_pair. simpl. f_equal.
    unfold line_ok in Hl. repeat (apply andb_true_iff in Hl as [Hl ?]).
    apply strip_word; [|assumption]. now destruct (l_key l).
Qed.

Lemma tokenize_chars_shape (s : list ascii) :
  Forall (fun kv => exists pre w s1 s2 val post : list ascii,
            s = pre ++ w ++ s1 ++ [equals_sign] ++ s2 ++ val ++ [newline] ++ post)
         (tokenize_chars s).
Proof.
  eapply Forall_impl; [apply tokenize_chars_sound|].
  intros kv (gs & (pre & post & Hs & HF) & _). unfold RE_SRCINFO_KEYS in HF.
  revert Hs.
  repeat match goal with
         | H : Forall2 _ (_ :: _) _ |- _ =>
             apply Forall2_cons_inv_l in H; destruct H as (? & ? & ? & ? & ->)
         | H : Forall2 _ [] _ |- _ => apply Forall2_nil_inv_l in H; subst
         end.
  simpl in *.
  repeat match goal with
         | H : exists _, _ |- _ => destruct H as (? & -> & ?)
         | H : _ /\ _ |- _ => destruct H
         end.
  match goal with H : Chars.is_equals _ = true |- _ => apply is_equals_eq in H as -> end.
  match goal with H : Chars.is_newline _ = true |- _ => apply is_newline_eq in H as -> end.
  intros Hs.
  match goal with
  | H : s = pre ++ (?w ++ ?s1 ++ _ ++ ?s2 ++ ?val ++ _) ++ post |- _ =>
      exists pre, w, s1, s2, val, post
  end.
  rewrite Hs. simpl.
  repeat first [rewrite <- app_assoc | rewrite <- app_comm_cons]. reflexivity.
Qed.

Lemma tokenize_chars_without (c : ascii) (s : list ascii) :
  c = equals_sign \/ c = newline -> ~ In c s -> tokenize_chars s = [].
Proof.
  intros Hc Hs. destruct (tokenize_chars s) as [|kv kvs] eqn:Ht; [reflexivity|exfalso].
  pose proof (tokenize_chars_shape s) as Hshape. rewrite Ht in Hshape.
  apply Forall_cons in Hshape as [(pre & w & s1 & s2 & val & post & ->) _].
  apply Hs. repeat (rewrite in_app_iff; simpl).
  destruct Hc as [-> | ->]; intuition auto.
Qed.

Lemma tokenize_without (c : ascii) (text : string) :
  c = equals_sign \/ c = newline -> ~ In c (list_ascii_of_string text) ->
  tokenize text = [].
Proof.
  intros Hc Hs. unfold tokenize. now rewrite (tokenize_chars_without c _ Hc Hs).
Qed.

Lemma list_ascii_of_string_app (a b : string) :
  list_ascii_of_string (a +:+ b) = list_ascii_of_string a ++ list_ascii_of_string b.
Proof. induction a as [|c a IH]; simpl; [reflexivity|now rewrite IH]. Qed.

Lemma findall_skip its c s :
  Regex.match_items its (c :: s) = None ->
  Regex.findall its (c :: s) = Regex.findall its s.
Proof. intros H. unfold Regex.findall. simpl length. cbn [Regex.findall_fuel]. now rewrite H. Qed.

(** *** Text after the last line feed *)

Lemma closes_line_newline its : forall gs,
  closes_line its -> Forall2 item_matches its gs -> In newline (concat gs).
Proof.
  induction its as [|it its IH]; intros gs Hc HF; [destruct Hc|].
  apply Forall2_cons_inv_l in HF as (g & gs' & Hg & HF & ->).
  simpl. apply in_app_iff. destruct its as [|it' its'].
  - left. simpl in Hc. subst it. destruct Hg as (c & -> & Hn).
    apply is_newline_eq in Hn as ->. now left.
  - right. apply IH; assumption.
Qed.

Lemma match_items_needs_newline its s gs r :
  closes_line its -> Regex.match_items its s = Some (gs, r) -> In newline s.
Proof.
  intros Hc Hm. apply match_items_sound in Hm as [-> HF].
  apply in_app_iff. left. now apply closes_line_newline with (its := its).
Qed.

Lemma findall_without_newline its s :
  closes_line its -> ~ In newline s -> Regex.findall its s = [].
Proof.
  intros Hc Hs. destruct (Regex.findall its s) as [|gs l] eqn:Hf; [reflexivity|exfalso].
  assert (Hin : In gs (Regex.findall its s)) by (rewrite Hf; now left).
  apply findall_fuel_sound in Hin as (pre & post & -> & HF).
  apply Hs. rewrite !in_app_iff. right. left.
  now apply closes_line_newline with (its := its).
Qed.

Lemma run_length_app_min p (s u : list ascii) :
  Nat.min (Regex.run_length p (s ++ u)) (length s) = Regex.run_length p s.
Proof.
  induction s as [|c s IH]; simpl.
  - apply Nat.min_0_r.
  - destruct (p c); simpl; [now rewrite IH|reflexivity].
Qed.

Lemma try_counts_app_tail k (s u : list ascii) :
  (forall x, k (x ++ u) = with_tail u (k x)) ->
  (forall m, k (drop m u) = None) ->
  forall n, Regex.try_counts k n (s ++ u)
            = with_tail u (Regex.try_counts k (Nat.min n (length s)) s).
Proof.
  intros Hk Hnone. induction n as [|n IH]; [reflexivity|].
  destruct (le_lt_dec (S n) (length s)) as [Hle|Hgt].
  - rewrite Nat.min_l by assumption. cbn [Regex.try_counts].
    rewrite drop_app_le, take_app_le by assumption. rewrite Hk.
    destruct (k (drop (S n) s)) as [[gs r]|]; [reflexivity|].
    rewrite IH. now rewrite Nat.min_l by lia.
  - rewrite Nat.min_r by lia. cbn [Regex.try_counts].
    rewrite drop_app_ge by lia. rewrite Hnone, IH. now rewrite Nat.min_r by lia.
Qed.

Lemma match_items_one p its c (s : list ascii) :
  Regex.match_items (Regex.One p :: its) (c :: s)
  = if p c then
      match Regex.match_items its s with
      | Some (gs, r) => Some ([c] :: gs, r)
      | None => None
      end
    else None.
Proof. reflexivity. Qed.

Lemma match_items_app_tail its : closes_line its -> forall s u,
  ~ In newline u ->
  Regex.match_items its (s ++ u) = with_tail u (Regex.match_items its s).
Proof.
  induction its as [|it its IH]; intros Hc s u Hu; [destruct Hc|].
  assert (Hnone : forall its0 x, closes_line its0 -> ~ In newline x ->
                                 Regex.match_items its0 x = None).
  { intros its0 x Hc0 Hx.
    destruct (Regex.match_items its0 x) as [[gs r]|] eqn:Hm; [|reflexivity].
    exfalso. apply Hx. eapply match_items_needs_newline; eassumption. }
  destruct its as [|it' its'].
  - simpl in Hc. subst it. destruct s as [|c s].
    + simpl app. now rewrite Hnone.
    + simpl. now destruct (Chars.is_newline c).
  - assert (Hc' : closes_line (it' :: its')) by exact Hc.
    specialize (IH Hc'). destruct it as [p|p].
    + destruct s as [|c s].
      * simpl app. now rewrite Hnone.
      * change ((c :: s) ++ u) with (c :: (s ++ u)).
        rewrite !match_items_one. destruct (p c); [|reflexivity].
        rewrite IH by assumption.
        now destruct (Regex.match_items (it' :: its') s) as [[gs r]|].
    + change (Regex.match_items (Regex.Many1 p :: it' :: its') (s ++ u))
        with (Regex.try_counts (Regex.match_items (it' :: its'))
                (Regex.run_length p (s ++ u)) (s ++ u)).
      rewrite try_counts_app_tail.
      * now rewrite run_length_app_min.
      * intros x. now apply IH.
      * intros m. apply Hnone; [assumption|].
        intros Hin. apply Hu. apply list_elem_of_In.
        apply list_elem_of_In in Hin. now apply (subseteq_drop m u).
Qed.

Lemma findall_app_tail its (u : list ascii) :
  closes_line its -> ~ In newline u ->
  forall n s, length s <= n -> Regex.findall its (s ++ u) = Regex.findall its s.
Proof.
  intros Hc Hu.
  assert (Hne : its <> []) by (destruct its; [destruct Hc|discriminate]).
  assert (Hnil : Regex.findall its ([] ++ u) = Regex.findall its []).
  { simpl app. now rewrite findall_without_newline. }
  induction n as [|n IH]; intros s Hs.
  - destruct s; [exact Hnil|simpl in Hs; lia].
  - destruct s as [|c s]; [exact Hnil|].
    pose proof (match_items_app_tail its Hc (c :: s) u Hu) as Hm.
    change ((c :: s) ++ u) with (c :: (s ++ u)) in *.
    destruct (Regex.match_items its (c :: s)) as [[gs r]|] eqn:Hms; simpl in Hm.
    + rewrite (findall_match its _ gs (r ++ u) Hne Hm).
      rewrite (findall_match its _ gs r Hne Hms). f_equal. apply IH.
      apply match_items_length in Hms; [simpl in *; lia|assumption].
    + rewrite (findall_skip _ _ _ Hm), (findall_skip _ _ _ Hms).
      apply IH. simpl in Hs. lia.
Qed.

(** X1.  What follows the last line feed of a text is not read: characters
    other than line feeds added at the end of a text, any text, do not
    change the pairs the tokenizer gives.  A last line that is not closed by
    a line feed is dropped. *)
Theorem tokenize_unterminated_line (text tail : string) :
  forallb Chars.is_dot (list_ascii_of_string tail) = true ->
  tokenize (text +:+ tail) = tokenize text.
Proof.
  intros Ht. unfold tokenize, tokenize_chars. rewrite list_ascii_of_string_app.
  rewrite (findall_app_tail RE_SRCINFO_KEYS (list_ascii_of_string tail)) with
    (n := length (list_ascii_of_string text)).
  - reflexivity.
  - reflexivity.
  - intros Hin. rewrite forallb_forall in Ht. now apply Ht in Hin.
  - apply le_n.
Qed.

Lemma tokenize_unterminated_line_witness :
  forallb Chars.is_dot (list_ascii_of_string "pkgver = 1.0") = true
  /\ tokenize (("pkgname = foo" +:+ nl) +:+ "pkgver = 1.0")
     = tokenize ("pkgname = foo" +:+ nl).
Proof.
  assert (H1 : forallb Chars.is_dot (list_ascii_of_string "pkgver = 1.0") = true)
    by (vm_compute; reflexivity).
  split; [exact H1|].
  exact (tokenize_unterminated_line ("pkgname = foo" +:+ nl) "pkgver = 1.0" H1).
Defined.

(** *** Lines without [=] *)



Lemma space_not_equals c : Chars.is_space c = true -> Chars.is_equals c = false.
Proof. destruct c as [[] [] [] [] [] [] [] []]; vm_compute; congruence. Qed.












(** The classes on the code points above 127: the letter U+00E9 is a word
  character, and the no-break space U+00A0 at the end of the value is
  stripped. *)
Example tokenize_latin_1 :
tokenize (String (ascii_of_nat 233) (" = 1" +:+ String (ascii_of_nat 160) nl))
= [(String (ascii_of_nat 233) EmptyString, "1")].
Proof. reflexivity. Qed.


(** The white space of an occurrence may hold a line feed: a line with an
  empty value takes the next line as its value, and that line, though of
  the form above, gets no pair of its own. *)
Lemma tokenize_spanning_lines :
tokenize ("x = " +:+ nl +:+ "foo = bar" +:+ nl) = [("x", "foo = bar")].
Proof. reflexivity. Qed.

(** X2.  A text without any [=], or without any line feed, holds no pair:
    [map_srcinfo] returns the empty record for it, whatever the target name
    and the field filter. *)
Theorem map_srcinfo_no_pairs (c : ascii) (text : string) (target : option string)
    (fields : option (gset string)) :
  c = equals_sign \/ c = newline ->
  ~ In c (list_ascii_of_string text) ->
  map_srcinfo text target fields = [].
Proof.
  intros Hc Hs. unfold map_srcinfo. rewrite (tokenize_without c text Hc Hs).
  reflexivity.
Qed.

Lemma map_srcinfo_no_pairs_witness :
  (newline = equals_sign \/ newline = newline)
  /\ ~ In newline (list_ascii_of_string "pkgname = foo")
  /\ map_srcinfo "pkgname = foo" (Some "foo") None = [].
Proof.
  assert (H1 : newline = equals_sign \/ newline = newline) by now right.
  assert (H2 : ~ In newline (list_ascii_of_string "pkgname = foo")).
  { simpl. intros H. repeat (destruct H as [H|H]; [discriminate H|]). exact H. }
  split; [exact H1|]. split; [exact H2|].
  exact (map_srcinfo_no_pairs newline "pkgname = foo" (Some "foo") None H1 H2).
Defined.

(** ** Further properties of the merge *)

Lemma merge_key_not_allowed pkgname fields key blocks : forall o,
  field_allowed fields key = false ->
  fold_left (merge_key pkgname fields key) blocks o = o.
Proof.
  induction blocks as [|blk blocks IH]; intros o Hf; [reflexivity|].
  simpl. rewrite IH by assumption. unfold merge_key. now rewrite Hf, andb_false_r.
Qed.

(** X3.  A field filter is kept: with a non-empty set of fields, every key
    of the record [map_srcinfo] returns is one of them, boundary keys
    included. *)
Theorem map_srcinfo_filter (text : string) (target : option string)
    (fields : gset string) (key : string) (val : fval) :
  fields <> ∅ ->
  dict_get key (map_srcinfo text target (Some fields)) = Some val ->
  key ∈ fields.
Proof.
  intros Hne. unfold map_srcinfo, map_srcinfo_pairs.
  rewrite merge_subinfos_get by apply segment_unique_keys.
  destruct (decide (key ∈ fields)) as [|Hn]; [auto|].
  rewrite merge_key_not_allowed; [discriminate|].
  simpl. rewrite bool_decide_eq_false_2 by assumption.
  now rewrite bool_decide_eq_false_2 by assumption.
Qed.

Lemma map_srcinfo_filter_witness :
  ({[ "pkgver" ]} : gset string) <> ∅
  /\ dict_get "pkgver"
       (map_srcinfo ("pkgname = foo" +:+ nl +:+ "pkgver = 1" +:+ nl) None
                    (Some {[ "pkgver" ]}))
     = Some (FStr "1")
  /\ "pkgver" ∈ ({[ "pkgver" ]} : gset string).
Proof.
  assert (H1 : ({[ "pkgver" ]} : gset string) <> ∅).
  { intros H. apply (f_equal size) in H. rewrite size_singleton, size_empty in H.
    discriminate. }
  assert (H2 : dict_get "pkgver"
                 (map_srcinfo ("pkgname = foo" +:+ nl +:+ "pkgver = 1" +:+ nl) None
                              (Some {[ "pkgver" ]}))
               = Some (FStr "1")) by reflexivity.
  split; [exact H1|]. split; [exact H2|].
  exact (map_srcinfo_filter _ None {[ "pkgver" ]} "pkgver" (FStr "1") H1 H2).
Defined.

(** X4.  A list in a record returned by [map_srcinfo] never holds a value
    twice. *)
Theorem map_srcinfo_lists_nodup (text : string) (target : option string)
    (fields : option (gset string)) (key : string) (l : list string) :
  dict_get key (map_srcinfo text target fields) = Some (FList l) ->
  NoDup l.
Proof.
  unfold map_srcinfo, map_srcinfo_pairs.
  rewrite merge_subinfos_get by apply segment_unique_keys.
  destruct (fold_left _ _ None) as [[s|s]|]; simpl; try discriminate.
  intros [= <-]. apply NoDup_elements.
Qed.

Lemma map_srcinfo_lists_nodup_witness :
  dict_get "url"
    (map_srcinfo ("url = a" +:+ nl +:+ "url = b" +:+ nl +:+ "url = a" +:+ nl) None None)
  = Some (FList ["a"; "b"])
  /\ NoDup ["a"; "b"].
Proof.
  assert (H : dict_get "url"
                (map_srcinfo ("url = a" +:+ nl +:+ "url = b" +:+ nl +:+ "url = a" +:+ nl)
                             None None)
              = Some (FList ["a"; "b"])) by reflexivity.
  split; [exact H|].
  exact (map_srcinfo_lists_nodup _ None None "url" ["a"; "b"] H).
Defined.

Lemma spec_segment_concat pairs : concat (spec_segment pairs) = pairs.
Proof. unfold spec_segment. now rewrite spec_run_concat. Qed.

Lemma record_values_merge pkgname fields key blocks :
  Forall unique_keys blocks ->
  record_values key (merge_subinfos blocks pkgname fields)
  = folded_values pkgname fields key blocks.
Proof.
  intros Hu. unfold record_values. rewrite merge_subinfos_get by assumption.
  pose proof (merge_key_values pkgname fields key blocks None) as HV.
  simpl in HV. rewrite (left_id_L ∅ (∪)) in HV. rewrite <- HV.
  destruct (fold_left _ _ None) as [[s|s]|]; simpl; try reflexivity.
  apply list_to_set_elements_L.
Qed.

(** *** The blocks that enter the merge *)

Lemma merge_subinfos_values target fields key v (subinfos : list (dict bval)) :
  target <> "" -> Forall unique_keys subinfos ->
  v ∈ record_values key (merge_subinfos subinfos (Some target) fields)
  <-> field_allowed fields key = true
      /\ exists blk, blk ∈ subinfos /\ spec_selected target blk = true
                     /\ v ∈ values_at key blk.
Proof.
  intros Hne Hu. rewrite record_values_merge by assumption.
  rewrite elem_of_folded_values. split.
  - intros (blk & Hin & Hsel & Hv). apply andb_true_iff in Hsel as [Hs Ha].
    rewrite block_selected_given in Hs by assumption. eauto.
  - intros (Ha & blk & Hin & Hs & Hv). exists blk.
    rewrite block_selected_given by assumption. rewrite Hs, Ha. auto.
Qed.

Lemma merge_all_values fields key v (subinfos : list (dict bval)) :
  Forall unique_keys subinfos ->
  v ∈ record_values key (merge_subinfos subinfos None fields)
  <-> field_allowed fields key = true
      /\ exists blk, blk ∈ subinfos /\ v ∈ values_at key blk.
Proof.
  intros Hu. rewrite record_values_merge by assumption.
  rewrite elem_of_folded_values. split.
  - intros (blk & Hin & Hsel & Hv). apply andb_true_iff in Hsel as [_ Ha]. eauto.
  - intros (Ha & blk & Hin & Hv). exists blk. rewrite Ha. auto.
Qed.

Lemma map_srcinfo_pairs_unmatched pairs target fields :
  target ∉ pkgnames_of (segment fields pairs) ->
  map_srcinfo_pairs pairs (Some target) fields = map_srcinfo_pairs pairs None fields.
Proof.
  intros Hnot. unfold map_srcinfo_pairs, merge_target.
  rewrite (bool_decide_eq_false_2 _ Hnot). cbn [negb]. now rewrite !orb_true_r.
Qed.

(** C1 (amended).  With a non-empty target name [merge_subinfos] folds
    exactly the blocks whose [pkgname] is the target and the blocks without
    a [pkgname]: under every key the field filter lets through, its result
    holds the values these blocks have under the key and no others, and it
    is the merge of these blocks alone.  This holds also when no block
    carries the target; [merge_subinfos] has no fall-back of its own.  The
    fall-back is made by [map_srcinfo]: for a target that no block of the
    document carries it returns what it returns without a target, the
    values of every block; for a target that some block carries, the values
    of the blocks that carry it or have no [pkgname]. *)
Theorem merge_target_blocks (subinfos : list (dict bval))
    (pairs : list (string * string)) (target : string)
    (fields : option (gset string)) (key v : string) :
  target <> "" ->
  Forall unique_keys subinfos ->
  (v ∈ record_values key (merge_subinfos subinfos (Some target) fields)
   <-> field_allowed fields key = true
       /\ exists blk, blk ∈ subinfos /\ spec_selected target blk = true
                      /\ v ∈ values_at key blk)
  /\ merge_subinfos subinfos (Some target) fields
     = merge_subinfos (filter (fun s => spec_selected target s = true) subinfos)
                      None fields
  /\ (target ∉ pkgnames_of (segment fields pairs) ->
      map_srcinfo_pairs pairs (Some target) fields
      = map_srcinfo_pairs pairs None fields
      /\ (v ∈ record_values key (map_srcinfo_pairs pairs (Some target) fields)
          <-> field_allowed fields key = true
              /\ exists blk, blk ∈ segment fields pairs /\ v ∈ values_at key blk))
  /\ (target ∈ pkgnames_of (segment fields pairs) ->
      map_srcinfo_pairs pairs (Some target) fields
      = merge_subinfos
          (filter (fun s => spec_selected target s = true) (segment fields pairs))
          None fields
      /\ (v ∈ record_values key (map_srcinfo_pairs pairs (Some target) fields)
          <-> field_allowed fields key = true
              /\ exists blk, blk ∈ segment fields pairs
                             /\ spec_selected target blk = true
                             /\ v ∈ values_at key blk)).
Proof.
  intros Hne Hu. split; [now apply merge_subinfos_values|].
  split; [now apply merge_subinfos_filter|]. split.
  - intros Hnot. rewrite map_srcinfo_pairs_unmatched by assumption.
    split; [reflexivity|]. unfold map_srcinfo_pairs. cbn [merge_target].
    apply merge_all_values, segment_unique_keys.
  - intros Hin. rewrite map_srcinfo_pairs_target by assumption.
    rewrite (bool_decide_eq_true_2 _ Hin). split; [reflexivity|].
    rewrite <- merge_subinfos_filter by assumption.
    apply merge_subinfos_values; [assumption|apply segment_unique_keys].
Qed.

Lemma merge_target_blocks_witness :
  "y" <> ""
  /\ Forall unique_keys (segment None example_pairs)
  /\ "y" ∈ pkgnames_of (segment None example_pairs)
  /\ ("1" ∈ record_values "pkgver"
             (merge_subinfos (segment None example_pairs) (Some "y") None)
      <-> field_allowed None "pkgver" = true
          /\ exists blk, blk ∈ segment None example_pairs
                         /\ spec_selected "y" blk = true
                         /\ "1" ∈ values_at "pkgver" blk)
  /\ map_srcinfo_pairs example_pairs (Some "y") None
     = merge_subinfos
         (filter (fun s => spec_selected "y" s = true) (segment None example_pairs))
         None None
  /\ map_srcinfo_pairs example_pairs (Some "y") None
     = [ ("pkgbase", FStr "b"); ("pkgver", FStr "1"); ("pkgname", FStr "y") ].
Proof.
  assert (H1 : "y" <> "") by discriminate.
  assert (H2 : Forall unique_keys (segment None example_pairs))
    by apply segment_unique_keys.
  assert (H3 : "y" ∈ pkgnames_of (segment None example_pairs)).
  { apply (bool_decide_unpack _). vm_compute. exact I. }
  assert (H4 : map_srcinfo_pairs example_pairs (Some "y") None
               = [ ("pkgbase", FStr "b"); ("pkgver", FStr "1"); ("pkgname", FStr "y") ])
    by (vm_compute; reflexivity).
  destruct (merge_target_blocks (segment None example_pairs) example_pairs "y" None
              "pkgver" "1" H1 H2) as (Hv & _ & _ & Hin).
  destruct (Hin H3) as [Heq _].
  split; [exact H1|]. split; [exact H2|]. split; [exact H3|].
  split; [exact Hv|]. split; [exact Heq|exact H4].
Defined.

(** C1 as stated fails for [merge_subinfos]: no block carries the target
    [zzz], and the result is not the merge of all blocks; it is empty,
    because every block has a [pkgname] of its own. *)
Lemma merge_subinfos_no_fallback :
  ("zzz" ∉ pkgnames_of two_subpackages)
  /\ merge_subinfos two_subpackages (Some "zzz") None = []
  /\ map fst (merge_subinfos two_subpackages None None) = ["pkgname"; "pkgdesc"]
  /\ merge_subinfos two_subpackages (Some "zzz") None
     <> merge_subinfos two_subpackages None None.
Proof.
  assert (H1 : "zzz" ∉ pkgnames_of two_subpackages).
  { apply (bool_decide_unpack _). vm_compute. exact I. }
  assert (H2 : merge_subinfos two_subpackages (Some "zzz") None = [])
    by (vm_compute; reflexivity).
  assert (H3 : map fst (merge_subinfos two_subpackages None None)
               = ["pkgname"; "pkgdesc"]) by (vm_compute; reflexivity).
  split; [exact H1|]. split; [exact H2|]. split; [exact H3|].
  intros Heq. rewrite H2 in Heq. rewrite <- Heq in H3. discriminate H3.
Qed.

Lemma map_srcinfo_pairs_values pairs target key v :
  merge_target (pkgnames_of (segment None pairs)) target = None ->
  v ∈ record_values key (map_srcinfo_pairs pairs target None) <-> (key, v) ∈ pairs.
Proof.
  intros Ht. unfold map_srcinfo_pairs. rewrite Ht.
  rewrite record_values_merge by apply segment_unique_keys.
  rewrite elem_of_folded_values, segment_spec_segment. split.
  - intros (blk & Hblk & _ & Hv).
    apply list_elem_of_fmap in Hblk as (ps & -> & Hps).
    apply block_of_pairs_values in Hv.
    rewrite <- (spec_segment_concat pairs). apply list_elem_of_In, in_concat.
    exists ps. split; now apply list_elem_of_In.
  - intros Hin. rewrite <- (spec_segment_concat pairs) in Hin.
    apply list_elem_of_In, in_concat in Hin as (ps & Hps & Hin).
    exists (block_of_pairs ps). split; [|split; [reflexivity|]].
    + apply list_elem_of_fmap. exists ps. split; [reflexivity|now apply list_elem_of_In].
    + apply block_of_pairs_values. now apply list_elem_of_In.
Qed.

(** X5.  When [map_srcinfo] merges every block (no target, or a target the
    merge does not filter by) and no field filter is given, the record holds
    under each key exactly the values the document gives that key: none is
    lost and none is made up. *)
Theorem map_srcinfo_values (text : string) (target : option string)
    (key v : string) :
  merge_target (pkgnames_of (segment None (tokenize text))) target = None ->
  v ∈ record_values key (map_srcinfo text target None) <-> (key, v) ∈ tokenize text.
Proof. intros Ht. unfold map_srcinfo. now apply map_srcinfo_pairs_values. Qed.

Lemma map_srcinfo_values_witness :
  merge_target
    (pkgnames_of (segment None (tokenize ("pkgname = foo" +:+ nl +:+ "url = u" +:+ nl))))
    (Some "foo") = None
  /\ ("u" ∈ record_values "url"
              (map_srcinfo ("pkgname = foo" +:+ nl +:+ "url = u" +:+ nl) (Some "foo") None)
      <-> ("url", "u") ∈ tokenize ("pkgname = foo" +:+ nl +:+ "url = u" +:+ nl)).
Proof.
  assert (H : merge_target
                (pkgnames_of
                   (segment None (tokenize ("pkgname = foo" +:+ nl +:+ "url = u" +:+ nl))))
                (Some "foo") = None) by reflexivity.
  split; [exact H|].
  exact (map_srcinfo_values ("pkgname = foo" +:+ nl +:+ "url = u" +:+ nl)
           (Some "foo") "url" "u" H).
Defined.

(** *** A field given once *)

Lemma key_count_app key ps qs :
  key_count key (ps ++ qs) = key_count key ps + key_count key qs.
Proof. unfold key_count. now rewrite filter_app, length_app. Qed.

Lemma key_count_one key f :
  key_count key [f] = if bool_decide (fst f = key) then 1 else 0.
Proof.
  unfold key_count. rewrite filter_cons, filter_nil.
  case_bool_decide; [now rewrite decide_True|now rewrite decide_False].
Qed.

Lemma block_insert_get_ne key k val b :
  k <> key -> dict_get key (block_insert k val b) = dict_get key b.
Proof.
  intros Hne. unfold block_insert. destruct (dict_get k b); now rewrite dict_get_set_ne.
Qed.

Lemma block_of_pairs_absent key ps :
  key_count key ps = 0 -> dict_get key (block_of_pairs ps) = None.
Proof.
  induction ps as [|[k x] ps IH] using rev_ind; intros Hc; [reflexivity|].
  rewrite key_count_app, key_count_one in Hc. simpl in Hc.
  case_bool_decide as Hk; [lia|].
  rewrite block_of_pairs_snoc. simpl. rewrite block_insert_get_ne by assumption.
  apply IH. lia.
Qed.

Lemma block_of_pairs_once key ps :
  key_count key ps = 1 -> in_known_list key = false ->
  exists v, dict_get key (block_of_pairs ps) = Some (BStr v).
Proof.
  induction ps as [|[k x] ps IH] using rev_ind; intros Hc Hk; [discriminate|].
  rewrite key_count_app, key_count_one in Hc. simpl in Hc.
  rewrite block_of_pairs_snoc. simpl. case_bool_decide as Heq.
  - subst k. exists x. unfold block_insert.
    rewrite block_of_pairs_absent by lia. now rewrite Hk, dict_get_set_eq.
  - rewrite block_insert_get_ne by assumption. apply IH; [lia|assumption].
Qed.

Lemma merge_key_absent key pss : forall o,
  key_count key (concat pss) = 0 ->
  fold_left (merge_key None None key) (map block_of_pairs pss) o = o.
Proof.
  induction pss as [|ps pss IH]; intros o Hc; [reflexivity|].
  simpl in Hc. rewrite key_count_app in Hc. simpl.
  rewrite IH by lia. unfold merge_key. simpl.
  now rewrite block_of_pairs_absent by lia.
Qed.

Lemma merge_key_once key pss :
  key_count key (concat pss) = 1 -> in_known_list key = false ->
  exists v, fold_left (merge_key None None key) (map block_of_pairs pss) None
            = Some (BStr v).
Proof.
  induction pss as [|ps pss IH]; intros Hc Hk; [discriminate|].
  simpl in Hc. rewrite key_count_app in Hc. simpl.
  destruct (key_count key ps) as [|[|n]] eqn:Hps.
  - unfold merge_key at 2. simpl. rewrite block_of_pairs_absent by assumption.
    apply IH; [lia|assumption].
  - destruct (block_of_pairs_once key ps Hps Hk) as [v Hv].
    unfold merge_key at 2. simpl. rewrite Hv. simpl.
    exists v. apply merge_key_absent. lia.
  - lia.
Qed.

(** X6.  A field outside [KNOWN_LIST_FIELDS] that the document gives exactly
    once is returned as a plain string, when every block is merged and no
    field filter is given. *)
Theorem map_srcinfo_scalar (text : string) (target : option string)
    (key v : string) :
  merge_target (pkgnames_of (segment None (tokenize text))) target = None ->
  key ∉ KNOWN_LIST_FIELDS ->
  key_count key (tokenize text) = 1 ->
  (key, v) ∈ tokenize text ->
  dict_get key (map_srcinfo text target None) = Some (FStr v).
Proof.
  intros Ht Hk Hc Hin.
  assert (Hknown : in_known_list key = false).
  { unfold in_known_list. now apply bool_decide_eq_false_2. }
  pose proof (proj2 (map_srcinfo_pairs_values (tokenize text) target key v Ht) Hin) as Hv.
  unfold map_srcinfo. unfold record_values in Hv. revert Hv.
  unfold map_srcinfo_pairs. rewrite Ht.
  rewrite merge_subinfos_get by apply segment_unique_keys.
  rewrite segment_spec_segment.
  rewrite <- (spec_segment_concat (tokenize text)) in Hc.
  destruct (merge_key_once key _ Hc Hknown) as [v' ->]. simpl.
  intros Hv. apply elem_of_singleton in Hv. now subst.
Qed.

Lemma map_srcinfo_scalar_witness :
  merge_target
    (pkgnames_of (segment None (tokenize ("pkgname = foo" +:+ nl +:+ "url = u" +:+ nl))))
    (Some "foo") = None
  /\ ("url" ∉ KNOWN_LIST_FIELDS)
  /\ key_count "url" (tokenize ("pkgname = foo" +:+ nl +:+ "url = u" +:+ nl)) = 1
  /\ ("url", "u") ∈ tokenize ("pkgname = foo" +:+ nl +:+ "url = u" +:+ nl)
  /\ dict_get "url"
       (map_srcinfo ("pkgname = foo" +:+ nl +:+ "url = u" +:+ nl) (Some "foo") None)
     = Some (FStr "u").
Proof.
  assert (H1 : merge_target
                 (pkgnames_of
                    (segment None (tokenize ("pkgname = foo" +:+ nl +:+ "url = u" +:+ nl))))
                 (Some "foo") = None) by reflexivity.
  assert (H2 : "url" ∉ KNOWN_LIST_FIELDS)
    by (apply (bool_decide_unpack _); vm_compute; exact I).
  assert (H3 : key_count "url" (tokenize ("pkgname = foo" +:+ nl +:+ "url = u" +:+ nl)) = 1)
    by reflexivity.
  assert (H4 : ("url", "u") ∈ tokenize ("pkgname = foo" +:+ nl +:+ "url = u" +:+ nl))
    by (apply (bool_decide_unpack _); vm_compute; exact I).
  repeat (split; [assumption|]).
  exact (map_srcinfo_scalar _ (Some "foo") "url" "u" H1 H2 H3 H4).
Defined.

(** *** The sub-package of the record *)

Lemma Forall_filter_keep {A : Type} (P Q : A -> Prop) `{forall x, Decision (Q x)}
    (l : list A) :
  Forall P l -> Forall P (filter Q l).
Proof.
  rewrite !Forall_forall. intros HP x Hx. apply list_elem_of_filter in Hx as [_ Hx].
  now apply HP.
Qed.

(** X7.  When the target name is the [pkgname] of some block and [pkgname]
    passes the field filter, the record [map_srcinfo] returns has the target
    as the only value of its [pkgname]: no other sub-package's name gets into
    it. *)
Theorem map_srcinfo_pkgname (pairs : list (string * string)) (target : string)
    (fields : option (gset string)) :
  target <> "" ->
  target ∈ pkgnames_of (segment fields pairs) ->
  field_allowed fields "pkgname" = true ->
  record_values "pkgname" (map_srcinfo_pairs pairs (Some target) fields) = {[ target ]}.
Proof.
  intros Hne Hin Hal.
  rewrite map_srcinfo_pairs_target by assumption.
  rewrite bool_decide_eq_true_2 by assumption.
  rewrite record_values_merge
    by (apply Forall_filter_keep, segment_unique_keys).
  apply set_eq. intros v. rewrite elem_of_folded_values, elem_of_singleton. split.
  - intros (blk & Hblk & _ & Hv).
    apply list_elem_of_filter in Hblk as [Hsel _].
    unfold spec_selected in Hsel. unfold values_at in Hv.
    destruct (dict_get "pkgname" blk) as [[n|s]|]; simpl in Hv.
    + apply String.eqb_eq in Hsel. apply elem_of_singleton in Hv. congruence.
    + discriminate.
    + now apply not_elem_of_empty in Hv.
  - intros ->. apply elem_of_pkgnames_of in Hin as (blk & Hblk & Hg).
    exists blk. split; [|split].
    + apply list_elem_of_filter. split; [|assumption].
      unfold spec_selected. rewrite Hg. apply String.eqb_refl.
    + now rewrite Hal.
    + unfold values_at. rewrite Hg. simpl. now apply elem_of_singleton.
Qed.

Lemma map_srcinfo_pkgname_witness :
  "y" <> ""
  /\ "y" ∈ pkgnames_of (segment None example_pairs)
  /\ field_allowed None "pkgname" = true
  /\ record_values "pkgname" (map_srcinfo_pairs example_pairs (Some "y") None)
     = {[ "y" ]}.
Proof.
  assert (H1 : "y" <> "") by discriminate.
  assert (H2 : "y" ∈ pkgnames_of (segment None example_pairs))
    by (apply (bool_decide_unpack _); vm_compute; exact I).
  assert (H3 : field_allowed None "pkgname" = true) by reflexivity.
  repeat (split; [assumption|]).
  exact (map_srcinfo_pkgname example_pairs "y" None H1 H2 H3).
Defined.

(** *** From the document to the dependencies *)

Lemma dependency_attrs_known x86 attr :
  attr ∈ dependency_attrs x86 -> attr ∈ KNOWN_LIST_FIELDS.
Proof.
  intros H. apply known_list_iff.
  destruct x86; repeat (apply elem_of_cons in H as [->|H]; [reflexivity|]);
    now apply elem_of_nil in H.
Qed.

Lemma field_items_known text target fields attr :
  attr ∈ KNOWN_LIST_FIELDS ->
  field_items (dict_get attr (map_srcinfo text target fields))
  = record_values attr (map_srcinfo text target fields).
Proof.
  intros Hk. unfold record_values, field_items.
  destruct (dict_get attr (map_srcinfo text target fields)) as [val|] eqn:Hg;
    [|reflexivity].
  destruct (map_srcinfo_known_list text target fields attr val Hk Hg) as [l ->].
  reflexivity.
Qed.

(** X8.  From the text to the dependencies: when every block is merged and
    no field filter is given, the dependencies extracted from the record of
    a document are exactly the values its lines give to [makedepends],
    [depends], [checkdepends] and their variants for the client's
    architecture. *)
Theorem document_dependencies (x86 : bool) (text : string) (target : option string)
    (x : string) :
  merge_target (pkgnames_of (segment None (tokenize text))) target = None ->
  x ∈ extract_required_dependencies x86 (map_srcinfo text target None)
  <-> exists attr, attr ∈ dependency_attrs x86 /\ (attr, x) ∈ tokenize text.
Proof.
  intros Ht. rewrite extract_union, elem_of_union_list. split.
  - intros (X & HX & Hx). apply list_elem_of_fmap in HX as (attr & -> & Hattr).
    exists attr. split; [assumption|].
    rewrite field_items_known in Hx by (eapply dependency_attrs_known; eassumption).
    unfold map_srcinfo in Hx. now apply map_srcinfo_pairs_values in Hx.
  - intros (attr & Hattr & Hin).
    exists (field_items (dict_get attr (map_srcinfo text target None))). split.
    + apply list_elem_of_fmap. eauto.
    + rewrite field_items_known by (eapply dependency_attrs_known; eassumption).
      unfold map_srcinfo. now apply map_srcinfo_pairs_values.
Qed.

Lemma document_dependencies_witness :
  merge_target
    (pkgnames_of
       (segment None (tokenize ("pkgname = foo" +:+ nl +:+ "depends = a>=1" +:+ nl))))
    (Some "foo") = None
  /\ ("a>=1" ∈ extract_required_dependencies true
                 (map_srcinfo ("pkgname = foo" +:+ nl +:+ "depends = a>=1" +:+ nl)
                              (Some "foo") None)
      <-> exists attr, attr ∈ dependency_attrs true
                       /\ (attr, "a>=1")
                          ∈ tokenize ("pkgname = foo" +:+ nl +:+ "depends = a>=1" +:+ nl)).
Proof.
  assert (H : merge_target
                (pkgnames_of
                   (segment None
                      (tokenize ("pkgname = foo" +:+ nl +:+ "depends = a>=1" +:+ nl))))
                (Some "foo") = None) by reflexivity.
  split; [exact H|].
  exact (document_dependencies true
           ("pkgname = foo" +:+ nl +:+ "depends = a>=1" +:+ nl) (Some "foo") "a>=1" H).
Defined.

(** ** Further properties of the client *)

Section ClientMore.

Context {W : Type}.
Variable http_get : string -> W -> result transport_exn (option Response) * W.
Variable http_get_json :
  string -> W -> result transport_exn (option (list info_entry)) * W.
Variable quote : string -> string.

Local Abbreviation lookup_src := (get_src_info http_get http_get_json quote).
Local Abbreviation required := (get_required_dependencies http_get http_get_json quote).

Implicit Types (c : @client W) (name : string) (real : option string).

(** X9.  A document that has content but no pair gives the empty mapping,
    not [None]: nothing is cached, the info endpoint is not asked and no
    fallback to a base package is tried; [get_required_dependencies] then
    raises [PackageNotFoundException]. *)
Theorem content_without_pairs (fuel : nat) name real c
    (res : option Response) (w1 : W) :
  record_truthy (srcinfo_cache c !! name) = false ->
  http_get (URL_SRC_INFO +:+ quote name) (world c) = (Ok res, w1) ->
  has_content res = true ->
  tokenize (response_text res) = [] ->
  lookup_src (S fuel) name real c
  = Some (Ok (Some []), after_fetch quote name real w1 c)
  /\ trace (after_fetch quote name real w1 c)
     = trace c ++ [EvLookup name real; EvGet (URL_SRC_INFO +:+ quote name)]
  /\ srcinfo_cache (after_fetch quote name real w1 c) = srcinfo_cache c
  /\ required (S fuel) name c
     = Some (Raise (PackageNotFoundException name), after_fetch quote name None w1 c).
Proof.
  intros Hmiss Hget Hc Htok.
  assert (Hl : forall real', lookup_src (S fuel) name real' c
                             = Some (Ok (Some []), after_fetch quote name real' w1 c)).
  { intros real'.
    rewrite (get_src_info_content http_get http_get_json quote
               fuel name real' c res w1 Hmiss Hget Hc).
    unfold map_srcinfo. rewrite Htok. reflexivity. }
  split; [apply Hl|]. split; [|split; [reflexivity|]].
  - simpl. now rewrite <- app_assoc.
  - unfold get_required_dependencies. now rewrite Hl.
Qed.

(** X10.  On the fallback a base name that has a cached record is answered
    from the cache: the cached record is returned as it is, whatever
    sub-package it was merged for, the base's document is not fetched, and
    the record is stored under the queried name as well. *)
Theorem fallback_to_cached_base (fuel : nat) name real c
    (res : option Response) (w1 : W) (info : info_entry) (rest : list info_entry)
    (w2 : W) (iname base : string) (d : dict fval) :
  record_truthy (srcinfo_cache c !! name) = false ->
  http_get (URL_SRC_INFO +:+ quote name) (world c) = (Ok res, w1) ->
  has_content res = false ->
  http_get_json (URL_INFO +:+ map_names_as_queries quote [name]) w1
  = (Ok (Some (info :: rest)), w2) ->
  Name info = Some iname -> PackageBase info = Some base ->
  iname <> "" -> base <> "" -> iname <> base ->
  srcinfo_cache c !! base = Some d -> nonempty d = true ->
  exists c',
    lookup_src (S (S fuel)) name real c = Some (Ok (Some d), c')
    /\ fetches (trace c') = fetches (trace c) ++ [URL_SRC_INFO +:+ quote name]
    /\ srcinfo_cache c' = <[ name := d ]> (srcinfo_cache c).
Proof.
  intros Hmiss Hget Hc Hjson Hn Hb Hi Hbn Hne Hd Hdne.
  pose proof (based_on_another_names info iname base Hn Hb Hi Hbn Hne) as Hbased.
  rewrite (get_src_info_fallback http_get http_get_json quote
             (S fuel) name real c res w1 info rest w2 Hmiss Hget Hc Hjson Hbased).
  rewrite Hn, Hb. simpl default.
  rewrite get_src_info_hit by (simpl; rewrite Hd; exact Hdne).
  simpl srcinfo_cache. rewrite Hd. simpl record_truthy. rewrite Hdne.
  eexists. split; [reflexivity|]. split; [|reflexivity].
  unfold fetches. simpl. rewrite !omap_app. simpl.
  repeat (rewrite app_nil_r || rewrite <- app_assoc). reflexivity.
Qed.

Ltac lookup_cases H :=
  apply get_src_info_cases in H
    as [(Hhit & -> & ->)
       | (Hhit & r & w1 & Hget &
          [(e' & -> & -> & ->)
          | [(content & -> & Hc & -> & ->)
            | (content & infos & w2 & -> & Hc & Hjson &
               [(Hb & -> & ->)
               | (info & rest & res2 & c2 & -> & Hb & Hrec & Hres)])]])].

Lemma get_src_info_raise_unchanged (fuel : nat) : forall name real c e c',
  lookup_src fuel name real c = Some (Raise e, c') ->
  srcinfo_cache c' = srcinfo_cache c.
Proof.
  induction fuel as [|fuel IH]; intros name real c e c' H; [discriminate|].
  remember (Raise e) as res eqn:Hres0.
  lookup_cases H; try discriminate.
  - reflexivity.
  - destruct res2 as [srcinfo|e2]; destruct Hres as [-> ->]; [discriminate|].
    now apply IH in Hrec.
Qed.

(** X11.  A lookup that ends with an exception of the transport stores
    nothing: the cache is the same before and after, also when the exception
    comes from a lookup of a base package further down. *)
Theorem raising_lookup_keeps_cache (fuel : nat) name real c
    (e : transport_exn) c' :
  lookup_src fuel name real c = Some (Raise e, c') ->
  srcinfo_cache c' = srcinfo_cache c.
Proof. apply get_src_info_raise_unchanged. Qed.

Lemma cycle_runs_out (a b : string) (fuel : nat) :
  (forall w, exists r w', http_get (URL_SRC_INFO +:+ quote a) w = (Ok r, w')
                          /\ has_content r = false) ->
  (forall w, exists r w', http_get (URL_SRC_INFO +:+ quote b) w = (Ok r, w')
                          /\ has_content r = false) ->
  (forall w, exists info rest w',
      http_get_json (URL_INFO +:+ map_names_as_queries quote [a]) w
      = (Ok (Some (info :: rest)), w')
      /\ based_on_another info = true /\ PackageBase info = Some b) ->
  (forall w, exists info rest w',
      http_get_json (URL_INFO +:+ map_names_as_queries quote [b]) w
      = (Ok (Some (info :: rest)), w')
      /\ based_on_another info = true /\ PackageBase info = Some a) ->
  forall c real,
    record_truthy (srcinfo_cache c !! a) = false ->
    record_truthy (srcinfo_cache c !! b) = false ->
    lookup_src fuel a real c = None /\ lookup_src fuel b real c = None.
Proof.
  intros Ha Hb Hja Hjb.
  induction fuel as [|fuel IH]; intros c real Hca Hcb; [split; reflexivity|].
  split.
  - destruct (Ha (world c)) as (r & w1 & Hget & Hc).
    destruct (Hja w1) as (info & rest & w2 & Hjson & Hbased & Hbase).
    rewrite (get_src_info_fallback http_get http_get_json quote
               fuel a real c r w1 info rest w2 Hca Hget Hc Hjson Hbased).
    rewrite Hbase. simpl default.
    now rewrite (proj2 (IH (after_miss quote a real w1 w2 c) (Name info) Hca Hcb)).
  - destruct (Hb (world c)) as (r & w1 & Hget & Hc).
    destruct (Hjb w1) as (info & rest & w2 & Hjson & Hbased & Hbase).
    rewrite (get_src_info_fallback http_get http_get_json quote
               fuel b real c r w1 info rest w2 Hcb Hget Hc Hjson Hbased).
    rewrite Hbase. simpl default.
    now rewrite (proj1 (IH (after_miss quote b real w1 w2 c) (Name info) Hca Hcb)).
Qed.

(** X12.  The fallback follows the info endpoint without a bound: when two
    names without documents are each reported as based on the other and
    neither has a cached record, the lookup of either never returns, however
    much recursion it is given. *)
Theorem cyclic_bases_never_return (a b : string) (fuel : nat) c real :
  (forall w, exists r w', http_get (URL_SRC_INFO +:+ quote a) w = (Ok r, w')
                          /\ has_content r = false) ->
  (forall w, exists r w', http_get (URL_SRC_INFO +:+ quote b) w = (Ok r, w')
                          /\ has_content r = false) ->
  (forall w, exists info rest w',
      http_get_json (URL_INFO +:+ map_names_as_queries quote [a]) w
      = (Ok (Some (info :: rest)), w')
      /\ based_on_another info = true /\ PackageBase info = Some b) ->
  (forall w, exists info rest w',
      http_get_json (URL_INFO +:+ map_names_as_queries quote [b]) w
      = (Ok (Some (info :: rest)), w')
      /\ based_on_another info = true /\ PackageBase info = Some a) ->
  record_truthy (srcinfo_cache c !! a) = false ->
  record_truthy (srcinfo_cache c !! b) = false ->
  lookup_src fuel a real c = None.
Proof.
  intros Ha Hb Hja Hjb Hca Hcb.
  exact (proj1 (cycle_runs_out a b fuel Ha Hb Hja Hjb c real Hca Hcb)).
Qed.

(** X13.  After [clean_caches] every lookup that returns has begun with a
    fetch of the document of its name, whatever the cache held before. *)
Theorem lookup_after_clean_fetches (fuel : nat) name real c
    (res : result transport_exn (option (dict fval))) c' :
  lookup_src fuel name real (clean_caches c) = Some (res, c') ->
  exists rest,
    trace c' = trace c ++ EvLookup name real :: EvGet (URL_SRC_INFO +:+ quote name) :: rest.
Proof.
  intros H.
  apply (get_src_info_trace http_get http_get_json quote) in H as (rest & Ht & Hfetch).
  destruct Hfetch as [rest' ->].
  - simpl. now rewrite lookup_empty.
  - eauto.
Qed.

(** X14.  A fallback that fetches the base's document stores the record it
    merged for the sub-package under the base name too: a later lookup for
    the base itself returns the sub-package's record, without a fetch. *)
Theorem fallback_caches_base (fuel fuel' : nat) name real c
    (res : option Response) (w1 : W) (info : info_entry) (rest : list info_entry)
    (w2 : W) (iname base : string) (res_b : option Response) (w3 : W)
    (real' : option string) :
  record_truthy (srcinfo_cache c !! name) = false ->
  http_get (URL_SRC_INFO +:+ quote name) (world c) = (Ok res, w1) ->
  has_content res = false ->
  http_get_json (URL_INFO +:+ map_names_as_queries quote [name]) w1
  = (Ok (Some (info :: rest)), w2) ->
  Name info = Some iname -> PackageBase info = Some base ->
  iname <> "" -> base <> "" -> iname <> base ->
  record_truthy (srcinfo_cache c !! base) = false ->
  http_get (URL_SRC_INFO +:+ quote base) w2 = (Ok res_b, w3) ->
  has_content res_b = true ->
  nonempty (map_srcinfo (response_text res_b) (Some iname) None) = true ->
  exists c',
    lookup_src (S (S fuel)) name real c
    = Some (Ok (Some (map_srcinfo (response_text res_b) (Some iname) None)), c')
    /\ srcinfo_cache c' !! base
       = Some (map_srcinfo (response_text res_b) (Some iname) None)
    /\ lookup_src (S fuel') base real' c'
       = Some (Ok (Some (map_srcinfo (response_text res_b) (Some iname) None)),
               record (EvLookup base real') c').
Proof.
  intros Hmiss Hget Hc Hjson Hn Hb Hi Hbn Hne Hmiss_b Hget_b Hc_b Hrec.
  pose proof (based_on_another_names info iname base Hn Hb Hi Hbn Hne) as Hbased.
  rewrite (get_src_info_fallback http_get http_get_json quote
             (S fuel) name real c res w1 info rest w2 Hmiss Hget Hc Hjson Hbased).
  rewrite Hn, Hb. simpl default.
  rewrite (get_src_info_content http_get http_get_json quote fuel base (Some iname)
             (after_miss quote name real w1 w2 c) res_b w3 Hmiss_b Hget_b Hc_b).
  assert (Hgiven : str_given (Some iname) = true).
  { simpl. now destruct (String.eqb_spec iname ""). }
  rewrite Hgiven, Hrec. simpl record_truthy. rewrite Hrec. simpl default.
  eexists. split; [reflexivity|].
  assert (Hcached : forall n,
            <[ n := map_srcinfo (response_text res_b) (Some iname) None ]>
              (<[ base := map_srcinfo (response_text res_b) (Some iname) None ]>
                 (srcinfo_cache c)) !! base
            = Some (map_srcinfo (response_text res_b) (Some iname) None)).
  { intros n. destruct (decide (n = base)) as [->|Hnb].
    - apply lookup_insert_eq.
    - rewrite lookup_insert_ne by assumption. apply lookup_insert_eq. }
  split.
  - apply Hcached.
  - rewrite get_src_info_hit; simpl srcinfo_cache; rewrite Hcached;
      [reflexivity|exact Hrec].
Qed.

End ClientMore.

Lemma content_without_pairs_witness :
  record_truthy (srcinfo_cache (new_client true tt) !! "junk") = false
  /\ table_get junk_docs (URL_SRC_INFO +:+ no_quote "junk") tt
     = (Ok (Some {| ok := true; text := "<html>Not Found</html>" |}), tt)
  /\ tokenize "<html>Not Found</html>" = []
  /\ get_src_info (table_get junk_docs) (table_get_json []) no_quote 1 "junk" None
       (new_client true tt)
     = Some (Ok (Some []), after_fetch no_quote "junk" None tt (new_client true tt))
  /\ trace (after_fetch no_quote "junk" None tt (new_client true tt))
     = trace (new_client true tt)
       ++ [EvLookup "junk" None; EvGet (URL_SRC_INFO +:+ no_quote "junk")]
  /\ srcinfo_cache (after_fetch no_quote "junk" None tt (new_client true tt))
     = srcinfo_cache (new_client true tt)
  /\ get_required_dependencies (table_get junk_docs) (table_get_json []) no_quote
       1 "junk" (new_client true tt)
     = Some (Raise (PackageNotFoundException "junk"),
             after_fetch no_quote "junk" None tt (new_client true tt)).
Proof.
  assert (H1 : record_truthy (srcinfo_cache (new_client true tt) !! "junk") = false)
    by reflexivity.
  assert (H2 : table_get junk_docs (URL_SRC_INFO +:+ no_quote "junk") tt
               = (Ok (Some {| ok := true; text := "<html>Not Found</html>" |}), tt))
    by reflexivity.
  assert (H3 : tokenize "<html>Not Found</html>" = []) by reflexivity.
  repeat (split; [assumption|]).
  exact (content_without_pairs (table_get junk_docs) (table_get_json []) no_quote
           0 "junk" None (new_client true tt)
           (Some {| ok := true; text := "<html>Not Found</html>" |}) tt
           H1 H2 eq_refl H3).
Defined.

Lemma fallback_to_cached_base_witness :
  record_truthy (srcinfo_cache chain_client_1 !! "b") = false
  /\ srcinfo_cache chain_client_1 !! "c" = Some chain_record
  /\ exists c',
       chain_lookup 2 "b" None chain_client_1 = Some (Ok (Some chain_record), c')
       /\ fetches (trace c')
          = fetches (trace chain_client_1) ++ [URL_SRC_INFO +:+ no_quote "b"]
       /\ srcinfo_cache c' = <[ "b" := chain_record ]> (srcinfo_cache chain_client_1).
Proof.
  assert (H1 : record_truthy (srcinfo_cache chain_client_1 !! "b") = false)
    by (vm_compute; reflexivity).
  assert (H2 : srcinfo_cache chain_client_1 !! "c" = Some chain_record)
    by (vm_compute; reflexivity).
  assert (H3 : table_get chain_docs (URL_SRC_INFO +:+ no_quote "b") (world chain_client_1)
               = (Ok None, tt)) by (vm_compute; reflexivity).
  assert (H4 : table_get_json chain_infos
                 (URL_INFO +:+ map_names_as_queries no_quote ["b"]) tt
               = (Ok (Some [entry "b" "c"]), tt)) by (vm_compute; reflexivity).
  assert (H5 : nonempty chain_record = true) by (vm_compute; reflexivity).
  assert (H6 : "b" <> "") by discriminate.
  assert (H7 : "c" <> "") by discriminate.
  assert (H8 : "b" <> "c") by discriminate.
  split; [exact H1|]. split; [exact H2|].
  exact (fallback_to_cached_base (table_get chain_docs) (table_get_json chain_infos)
           no_quote 0 "b" None chain_client_1 None tt (entry "b" "c") [] tt "b" "c"
           chain_record H1 H3 eq_refl H4 eq_refl eq_refl H6 H7 H8 H2 H5).
Defined.

Lemma raising_lookup_keeps_cache_witness :
  get_src_info offline_get offline_get_json no_quote 1 "zzz" None chain_client_1
  = Some (Raise ConnectionError, after_fetch no_quote "zzz" None tt chain_client_1)
  /\ srcinfo_cache (after_fetch no_quote "zzz" None tt chain_client_1)
     = srcinfo_cache chain_client_1.
Proof.
  assert (H : get_src_info offline_get offline_get_json no_quote 1 "zzz" None
                chain_client_1
              = Some (Raise ConnectionError,
                      after_fetch no_quote "zzz" None tt chain_client_1))
    by (vm_compute; reflexivity).
  split; [exact H|].
  exact (raising_lookup_keeps_cache offline_get offline_get_json no_quote
           1 "zzz" None chain_client_1 ConnectionError _ H).
Defined.

Lemma cyclic_bases_never_return_witness :
  get_src_info (table_get []) (table_get_json cycle_infos) no_quote
    50 "a" None (new_client true tt) = None.
Proof.
  apply (cyclic_bases_never_return (table_get []) (table_get_json cycle_infos) no_quote
           "a" "b" 50 (new_client true tt) None).
  - intros []. exists None, tt. split; reflexivity.
  - intros []. exists None, tt. split; reflexivity.
  - intros []. exists (entry "a" "b"), [], tt. repeat split; reflexivity.
  - intros []. exists (entry "b" "a"), [], tt. repeat split; reflexivity.
  - reflexivity.
  - reflexivity.
Defined.

Lemma lookup_after_clean_fetches_witness :
  chain_lookup 1 "c" None (clean_caches chain_client_1)
  = Some (Ok (Some chain_record),
          client_of (chain_lookup 1 "c" None (clean_caches chain_client_1)))
  /\ exists rest,
       trace (client_of (chain_lookup 1 "c" None (clean_caches chain_client_1)))
       = trace chain_client_1
         ++ EvLookup "c" None :: EvGet (URL_SRC_INFO +:+ no_quote "c") :: rest.
Proof.
  assert (H : chain_lookup 1 "c" None (clean_caches chain_client_1)
              = Some (Ok (Some chain_record),
                      client_of (chain_lookup 1 "c" None (clean_caches chain_client_1))))
    by (vm_compute; reflexivity).
  split; [exact H|].
  exact (lookup_after_clean_fetches (table_get chain_docs) (table_get_json chain_infos)
           no_quote 1 "c" None chain_client_1 _ _ H).
Defined.

Lemma fallback_caches_base_witness :
  nonempty (map_srcinfo (response_text chain_response) (Some "b") None) = true
  /\ exists c',
       chain_lookup 2 "b" None (new_client true tt)
       = Some (Ok (Some (map_srcinfo (response_text chain_response) (Some "b") None)), c')
       /\ srcinfo_cache c' !! "c"
          = Some (map_srcinfo (response_text chain_response) (Some "b") None)
       /\ chain_lookup 1 "c" None c'
          = Some (Ok (Some (map_srcinfo (response_text chain_response) (Some "b") None)),
                  record (EvLookup "c" None) c').
Proof.
  assert (H : nonempty (map_srcinfo (response_text chain_response) (Some "b") None) = true)
    by (vm_compute; reflexivity).
  assert (H1 : record_truthy (srcinfo_cache (new_client true tt) !! "b") = false)
    by reflexivity.
  assert (H2 : table_get chain_docs (URL_SRC_INFO +:+ no_quote "b")
                 (world (new_client true tt)) = (Ok None, tt))
    by (vm_compute; reflexivity).
  assert (H3 : table_get_json chain_infos
                 (URL_INFO +:+ map_names_as_queries no_quote ["b"]) tt
               = (Ok (Some [entry "b" "c"]), tt)) by (vm_compute; reflexivity).
  assert (H4 : record_truthy (srcinfo_cache (new_client true tt) !! "c") = false)
    by reflexivity.
  assert (H5 : table_get chain_docs (URL_SRC_INFO +:+ no_quote "c") tt
               = (Ok chain_response, tt)) by (vm_compute; reflexivity).
  assert (H6 : "b" <> "") by discriminate.
  assert (H7 : "c" <> "") by discriminate.
  assert (H8 : "b" <> "c") by discriminate.
  split; [exact H|].
  exact (fallback_caches_base (table_get chain_docs) (table_get_json chain_infos) no_quote
           0 0 "b" None (new_client true tt) None tt (entry "b" "c") [] tt "b" "c"
           chain_response tt None H1 H2 eq_refl H3 eq_refl eq_refl H6 H7 H8 H4 H5
           eq_refl H).
Defined.

(** ** [map_pkgbuild] *)



Lemma findall_pkgbuild_first_line (first rest : list ascii) :
  forallb Chars.is_dot first = true ->
  Regex.findall RE_PKGBUILD (first ++ rest) = Regex.findall RE_PKGBUILD rest.
Proof.
  induction first as [|c first IH]; intros H; [reflexivity|].
  simpl in H. apply andb_true_iff in H as [Hc H]. simpl app.
  rewrite findall_skip; [now apply IH|].
  unfold RE_PKGBUILD. cbn [Regex.match_items].
  unfold Chars.is_dot in Hc. apply negb_true_iff in Hc. now rewrite Hc.
Qed.

(** X15.  [map_pkgbuild] never reads the first line of its text: every
    assignment it finds follows a line feed, so a text and the same text
    without its first line give the same mapping. *)
Theorem map_pkgbuild_first_line (first rest : string) :
  forallb Chars.is_dot (list_ascii_of_string first) = true ->
  map_pkgbuild (first +:+ rest) = map_pkgbuild rest.
Proof.
  intros H. unfold map_pkgbuild.
  now rewrite list_ascii_of_string_app, findall_pkgbuild_first_line.
Qed.

Lemma map_pkgbuild_first_line_witness :
  forallb Chars.is_dot (list_ascii_of_string "pkgname=foo") = true
  /\ map_pkgbuild ("pkgname=foo" +:+ (nl +:+ "pkgver=1"))
     = map_pkgbuild (nl +:+ "pkgver=1").
Proof.
  split; [reflexivity|].
  apply (map_pkgbuild_first_line "pkgname=foo" (nl +:+ "pkgver=1")). reflexivity.
Defined.

Lemma remove_char_gone c s : ~ In c (remove_char c s).
Proof.
  induction s as [|x s IH]; simpl; [tauto|].
  destruct (Ascii.eqb_spec x c) as [->|Hne]; [assumption|].
  simpl. intros [H|H]; [congruence|contradiction].
Qed.

Lemma remove_char_subset c x s : In x (remove_char c s) -> In x s.
Proof.
  induction s as [|y s IH]; simpl; [tauto|].
  destruct (Ascii.eqb y c); simpl; tauto.
Qed.

Lemma clean_value_clean val :
  forallb (fun c => negb (is_quote_or_paren c)) (clean_value val) = true.
Proof.
  apply forallb_forall. intros c Hc. apply negb_true_iff.
  unfold is_quote_or_paren.
  destruct (Ascii.eqb_spec c double_quote) as [->|_].
  { exfalso. unfold clean_value in Hc.
    do 3 apply remove_char_subset in Hc. now apply remove_char_gone in Hc. }
  destruct (Ascii.eqb_spec c single_quote) as [->|_].
  { exfalso. unfold clean_value in Hc.
    do 2 apply remove_char_subset in Hc. now apply remove_char_gone in Hc. }
  destruct (Ascii.eqb_spec c open_paren) as [->|_].
  { exfalso. unfold clean_value in Hc.
    apply remove_char_subset in Hc. now apply remove_char_gone in Hc. }
  destruct (Ascii.eqb_spec c close_paren) as [->|_]; [|reflexivity].
  exfalso. unfold clean_value in Hc. now apply remove_char_gone in Hc.
Qed.

Lemma fold_left_dict_Forall {A V : Type} (P : string * V -> Prop)
    (step : dict V -> A -> dict V) (l : list A) :
  (forall d x, In x l -> Forall P d -> Forall P (step d x)) ->
  forall d, Forall P d -> Forall P (fold_left step l d).
Proof.
  induction l as [|x l IH]; intros Hstep d Hd; [assumption|].
  simpl. apply IH.
  - intros d' y Hy. apply Hstep. now right.
  - apply Hstep; [now left|assumption].
Qed.

(** X16.  Every entry of the mapping [map_pkgbuild] returns has a non-empty
    run of word characters, those of [\w], as its name, and its value holds
    no double quote, no single quote and no parenthesis. *)
Theorem map_pkgbuild_entries (pkgbuild key val : string) :
  dict_get key (map_pkgbuild pkgbuild) = Some val ->
  key <> ""
  /\ forallb Chars.is_word (list_ascii_of_string key) = true
  /\ forallb (fun c => negb (is_quote_or_paren c)) (list_ascii_of_string val) = true.
Proof.
  intros Hg. apply dict_get_elem in Hg.
  assert (HF : Forall (fun kv : string * string =>
                 fst kv <> ""
                 /\ forallb Chars.is_word (list_ascii_of_string (fst kv)) = true
                 /\ forallb (fun c => negb (is_quote_or_paren c))
                            (list_ascii_of_string (snd kv)) = true)
               (map_pkgbuild pkgbuild)).
  { unfold map_pkgbuild. apply fold_left_dict_Forall; [|constructor].
    intros d gs Hin Hd. unfold pkgbuild_step. apply dict_set_Forall; [assumption|].
    simpl. rewrite !list_ascii_of_string_of_list_ascii.
    apply findall_fuel_sound in Hin as (pre & post & _ & HF2).
    unfold RE_PKGBUILD in HF2.
    repeat match goal with
           | H : Forall2 _ (_ :: _) _ |- _ =>
               apply Forall2_cons_inv_l in H; destruct H as (? & ? & ? & ? & ->)
           | H : Forall2 _ [] _ |- _ => apply Forall2_nil_inv_l in H; subst
           end.
    simpl in *.
    repeat match goal with
           | H : exists _, _ |- _ => destruct H as (? & -> & ?)
           | H : _ /\ _ |- _ => destruct H
           end.
    split; [|split].
    - match goal with H : ?g <> [] |- string_of_list_ascii ?g <> _ =>
        intros Heq; apply H; apply (f_equal list_ascii_of_string) in Heq;
        now rewrite list_ascii_of_string_of_list_ascii in Heq end.
    - apply forallb_forall. intros c Hc.
      match goal with H : Forall (fun c => Chars.is_word c = true) _ |- _ =>
        rewrite Forall_forall in H; apply H; now apply list_elem_of_In end.
    - apply clean_value_clean. }
  rewrite Forall_forall in HF. exact (HF _ Hg).
Qed.

Lemma map_pkgbuild_entries_witness :
  dict_get "depends" (map_pkgbuild (pkgbuild_text example_pkgbuild)) = Some "a b"
  /\ "depends" <> ""
  /\ forallb Chars.is_word (list_ascii_of_string "depends") = true
  /\ forallb (fun c => negb (is_quote_or_paren c)) (list_ascii_of_string "a b") = true.
Proof.
  assert (H : dict_get "depends" (map_pkgbuild (pkgbuild_text example_pkgbuild))
              = Some "a b") by (vm_compute; reflexivity).
  split; [exact H|].
  exact (map_pkgbuild_entries (pkgbuild_text example_pkgbuild) "depends" "a b" H).
Defined.

Lemma match_assignment (kv : string * string) (rest : list ascii) :
  assignment_ok kv = true ->
  match rest with c :: _ => Chars.is_dot c = false | [] => True end ->
  Regex.match_items RE_PKGBUILD (assignment_text kv ++ rest)
  = Some ([[newline]; list_ascii_of_string (fst kv); [equals_sign];
           list_ascii_of_string (snd kv)], rest).
Proof.
  unfold assignment_ok, assignment_text, RE_PKGBUILD. intros H Hrest.
  repeat (apply andb_true_iff in H as [H ?]).
  destruct (list_ascii_of_string (fst kv)) as [|k0 k] eqn:Hk; [discriminate|].
  destruct (list_ascii_of_string (snd kv)) as [|v0 v] eqn:Hv; [discriminate|].
  repeat rewrite <- app_assoc.
  apply (match_one _ _ newline); [reflexivity|].
  apply match_many1_greedy; [congruence|assumption|reflexivity|].
  apply (match_one _ _ equals_sign); [reflexivity|].
  apply match_many1_greedy; [congruence|assumption|assumption|reflexivity].
Qed.

Lemma assignments_head (lines : list (string * string)) :
  match concat (map assignment_text lines) with
  | c :: _ => Chars.is_dot c = false
  | [] => True
  end.
Proof. destruct lines as [|kv lines]; [exact I|reflexivity]. Qed.

Lemma findall_assignments (lines : list (string * string)) :
  forallb assignment_ok lines = true ->
  Regex.findall RE_PKGBUILD (concat (map assignment_text lines))
  = map (fun kv => [[newline]; list_ascii_of_string (fst kv); [equals_sign];
                    list_ascii_of_string (snd kv)]) lines.
Proof.
  induction lines as [|kv lines IH]; intros H; [reflexivity|].
  simpl in H. apply andb_true_iff in H as [Hkv H]. cbn [map concat].
  rewrite (findall_match RE_PKGBUILD _ _ _ ltac:(discriminate)
             (match_assignment kv _ Hkv (assignments_head lines))).
  now rewrite IH.
Qed.

Lemma map_pkgbuild_assignments (lines : list (string * string)) :
  forallb assignment_ok lines = true ->
  map_pkgbuild (pkgbuild_text lines)
  = fold_left (fun d kv => dict_set (fst kv) (clean_string (snd kv)) d) lines [].
Proof.
  intros H. unfold map_pkgbuild, pkgbuild_text.
  rewrite list_ascii_of_string_of_list_ascii, (findall_assignments lines H).
  generalize (@nil (string * string)).
  induction lines as [|kv lines IH]; intros d; [reflexivity|].
  simpl in H. apply andb_true_iff in H as [_ H]. simpl map. cbn [fold_left].
  rewrite IH by assumption. f_equal. unfold pkgbuild_step. simpl.
  now rewrite string_of_list_ascii_of_string.
Qed.

Lemma fold_dict_set_other (lines : list (string * string)) (key : string) :
  forall d, key ∉ map fst lines ->
  dict_get key (fold_left (fun d kv => dict_set (fst kv) (clean_string (snd kv)) d) lines d)
  = dict_get key d.
Proof.
  induction lines as [|kv lines IH]; intros d Hk; [reflexivity|].
  simpl in Hk. apply not_elem_of_cons in Hk as [Hne Hk].
  cbn [fold_left]. rewrite IH by assumption. apply dict_get_set_ne. congruence.
Qed.

(** X17.  For a text made of assignment lines, each after a line feed, with
    identifiers as names and values that are not empty, [map_pkgbuild] gives
    each name the value of its last assignment, with the quotes and the
    parentheses removed. *)
Theorem map_pkgbuild_last_assignment (before after : list (string * string))
    (key val : string) :
  forallb assignment_ok (before ++ (key, val) :: after) = true ->
  key ∉ map fst after ->
  dict_get key (map_pkgbuild (pkgbuild_text (before ++ (key, val) :: after)))
  = Some (clean_string val).
Proof.
  intros Hok Hlast. rewrite (map_pkgbuild_assignments _ Hok).
  rewrite fold_left_app. cbn [fold_left].
  rewrite fold_dict_set_other by assumption. apply dict_get_set_eq.
Qed.

Lemma map_pkgbuild_last_assignment_witness :
  forallb assignment_ok
    ([("pkgname", "foo"); ("depends", "('a' 'b')")] ++ ("pkgname", "(bar)") :: []) = true
  /\ ("pkgname" ∉ map fst (@nil (string * string)))
  /\ dict_get "pkgname"
       (map_pkgbuild
          (pkgbuild_text
             ([("pkgname", "foo"); ("depends", "('a' 'b')")] ++ ("pkgname", "(bar)") :: [])))
     = Some (clean_string "(bar)").
Proof.
  assert (H1 : forallb assignment_ok
                 ([("pkgname", "foo"); ("depends", "('a' 'b')")]
                  ++ ("pkgname", "(bar)") :: []) = true) by reflexivity.
  assert (H2 : "pkgname" ∉ map fst (@nil (string * string))) by apply not_elem_of_nil.
  split; [exact H1|]. split; [exact H2|].
  exact (map_pkgbuild_last_assignment [("pkgname", "foo"); ("depends", "('a' 'b')")] []
           "pkgname" "(bar)" H1 H2).
Defined.

(** ** The name index *)

Lemma split_on_without sep l : ~ In sep l -> split_on sep l = [l].
Proof.
  induction l as [|c l IH]; intros H; [reflexivity|].
  simpl. destruct (Ascii.eqb_spec c sep) as [->|Hne].
  - exfalso. apply H. now left.
  - rewrite IH; [reflexivity|]. intros Hin. apply H. now right.
Qed.

Lemma split_on_piece sep l rest :
  ~ In sep l -> split_on sep (l ++ sep :: rest) = l :: split_on sep rest.
Proof.
  induction l as [|c l IH]; intros H; simpl.
  - now rewrite Ascii.eqb_refl.
  - destruct (Ascii.eqb_spec c sep) as [->|Hne].
    + exfalso. apply H. now left.
    + rewrite IH; [reflexivity|]. intros Hin. apply H. now right.
Qed.

Lemma split_on_join sep (lines : list (list ascii)) :
  lines <> [] -> Forall (fun l => ~ In sep l) lines ->
  split_on sep (join_lines sep lines) = lines.
Proof.
  induction lines as [|l lines IH]; intros Hne HF; [congruence|].
  inversion HF as [|? ? Hl HF']; subst.
  destruct lines as [|l' lines].
  - simpl. now apply split_on_without.
  - change (join_lines sep (l :: l' :: lines))
      with (l ++ sep :: join_lines sep (l' :: lines)).
    rewrite split_on_piece by assumption. f_equal. apply IH; [discriminate|assumption].
Qed.

Lemma is_dot_not_newline l : forallb Chars.is_dot l = true -> ~ In newline l.
Proof. intros H Hin. rewrite forallb_forall in H. now apply H in Hin. Qed.

Lemma names_of_lines (lines : list (list ascii)) (x : string) :
  lines <> [] -> Forall (fun l => forallb Chars.is_dot l = true) lines ->
  x ∈ names_of_text (string_of_list_ascii (join_lines newline lines))
  <-> exists n, In n lines /\ is_name_line n = true
                /\ x = string_of_list_ascii (strip n).
Proof.
  intros Hne HF. unfold names_of_text.
  rewrite list_ascii_of_string_of_list_ascii, split_on_join; [|assumption|].
  - rewrite elem_of_list_to_set, list_elem_of_fmap. split.
    + intros (n & -> & Hn). apply list_elem_of_In, filter_In in Hn as [Hn Hl]. eauto.
    + intros (n & Hn & Hl & ->). exists n. split; [reflexivity|].
      apply list_elem_of_In, filter_In. auto.
  - eapply Forall_impl; [eassumption|]. intros l. apply is_dot_not_newline.
Qed.

Lemma readlines_line l rest :
  ~ In newline l -> readlines (l ++ newline :: rest) = (l ++ [newline]) :: readlines rest.
Proof.
  induction l as [|c l IH]; intros H; [reflexivity|].
  simpl. destruct (Chars.is_newline c) eqn:Hc.
  - exfalso. apply H. left. now apply is_newline_eq.
  - rewrite IH; [reflexivity|]. intros Hin. apply H. now right.
Qed.

Lemma readlines_nonempty s : Forall (fun l => nonempty l = true) (readlines s).
Proof.
  induction s as [|c s IH]; simpl; [constructor|].
  destruct (Chars.is_newline c); [constructor; [reflexivity|assumption]|].
  destruct (readlines s) as [|h t]; [repeat constructor|].
  inversion IH; subst. constructor; [reflexivity|assumption].
Qed.

Lemma index_step_raised lines e : fold_left index_step lines (Raise e) = Raise e.
Proof. induction lines as [|l lines IH]; [reflexivity|]. simpl. apply IH. Qed.

Lemma index_fold_malformed lines l :
  In l lines -> nonempty l = true -> ~ In equals_sign l ->
  forall index, exists e, fold_left index_step lines index = Raise e.
Proof.
  induction lines as [|l' lines IH]; intros Hin Hl Heq index; [contradiction|].
  simpl. destruct Hin as [->|Hin].
  - destruct index as [d|e]; simpl.
    + rewrite Hl, split_on_without by assumption. exists IndexError.
      apply index_step_raised.
    + exists e. apply index_step_raised.
  - now apply IH.
Qed.

Section IndexFacts.

Context {W : Type}.
Variable http_get : string -> W -> result transport_exn (option Response) * W.

Implicit Types (c : @client W).

(** X18.  [download_names] on a reply whose text is a list of lines gives
    the set of the stripped lines that are not empty and do not start with
    [#]: comment lines and empty lines are left out, and a line that starts
    with white space is kept even when a [#] follows. *)
Theorem download_names_lines c (r : Response) (w1 : W)
    (lines : list (list ascii)) (x : string) :
  http_get URL_INDEX (world c) = (Ok (Some r), w1) ->
  ok r = true ->
  text r = string_of_list_ascii (join_lines newline lines) ->
  text r <> "" ->
  Forall (fun l => forallb Chars.is_dot l = true) lines ->
  exists S,
    fst (download_names http_get c) = Ok (Some S)
    /\ (x ∈ S <-> exists n, In n lines /\ is_name_line n = true
                            /\ x = string_of_list_ascii (strip n)).
Proof.
  intros Hget Hok Htext Hne HF.
  assert (Hlines : lines <> []).
  { intros ->. apply Hne. now rewrite Htext. }
  exists (names_of_text (text r)). split.
  - unfold download_names. rewrite Hget. simpl. rewrite Hok. simpl.
    destruct (String.eqb_spec (text r) ""); [contradiction|reflexivity].
  - rewrite Htext. now apply names_of_lines.
Qed.

(** X19.  One line without [=] in the local index file, an empty line for
    one, makes [read_index] return the empty set: the entries of the other
    lines are dropped and no download is tried. *)
Theorem read_index_malformed_line (content : string) c (l : list ascii) :
  In l (readlines (list_ascii_of_string content)) ->
  ~ In equals_sign l ->
  read_index http_get (Some content) c = (NamesSet ∅, c).
Proof.
  intros Hin Heq. unfold read_index, read_local_index.
  assert (Hl : nonempty l = true).
  { pose proof (readlines_nonempty (list_ascii_of_string content)) as HF.
    rewrite Forall_forall in HF. apply HF. now apply list_elem_of_In. }
  destruct (index_fold_malformed _ l Hin Hl Heq (Ok [])) as [e ->]. reflexivity.
Qed.

(** X20.  Without a local index (no file, or an empty one) [read_index]
    returns the empty set whatever the transport raises, also an exception
    that [download_names] itself lets through. *)
Theorem read_index_transport_failure (file : option string) c
    (e : transport_exn) (w1 : W) :
  file = None \/ file = Some "" ->
  http_get URL_INDEX (world c) = (Raise e, w1) ->
  read_index http_get file c
  = (NamesSet ∅, set_world w1 (record (EvGet URL_INDEX) c))
  /\ (fst (download_names http_get c) = Raise e <-> e <> ConnectionError).
Proof.
  intros Hfile Hget. split.
  - unfold read_index, download_names.
    destruct Hfile as [-> | ->]; simpl; rewrite Hget; now destruct e.
  - unfold download_names. rewrite Hget. destruct e; simpl; split; congruence.
Qed.

End IndexFacts.

Lemma readlines_index (entries : list (string * string)) :
  forallb index_entry_ok entries = true ->
  readlines (concat (map index_line entries)) = map index_line entries.
Proof.
  induction entries as [|kv entries IH]; intros H; [reflexivity|].
  simpl in H. apply andb_true_iff in H as [Hkv H]. cbn [map concat].
  unfold index_line at 1.
  replace ((list_ascii_of_string (fst kv) ++ [equals_sign]
            ++ list_ascii_of_string (snd kv) ++ [newline])
           ++ concat (map index_line entries))
    with ((list_ascii_of_string (fst kv) ++ equals_sign :: list_ascii_of_string (snd kv))
          ++ newline :: concat (map index_line entries))
    by (repeat (rewrite <- app_assoc; simpl); reflexivity).
  rewrite readlines_line.
  - rewrite IH by assumption. f_equal. unfold index_line.
    repeat (rewrite <- app_assoc; simpl). reflexivity.
  - unfold index_entry_ok in Hkv. repeat (apply andb_true_iff in Hkv as [Hkv ?]).
    rewrite forallb_forall in Hkv. intros Hin. apply in_app_iff in Hin as [Hin|[Hin|Hin]].
    + apply Hkv in Hin. apply andb_true_iff in Hin as [_ Hin]. discriminate Hin.
    + discriminate Hin.
    + match goal with H : forallb _ (list_ascii_of_string (snd kv)) = true |- _ =>
        rewrite forallb_forall in H; apply H in Hin end.
      apply andb_true_iff in Hin as [_ Hin]. discriminate Hin.
Qed.

Lemma strip_line_end (v : list ascii) :
  no_space_ends v = true -> strip (v ++ [newline]) = v.
Proof.
  unfold no_space_ends. intros H. apply andb_true_iff in H as [Hc Hc'].
  destruct v as [|c v]; [discriminate|].
  destruct (rev (c :: v)) as [|c' r] eqn:Hr; [discriminate|].
  apply negb_true_iff in Hc, Hc'.
  unfold strip, rstrip. cbn [app lstrip]. rewrite Hc.
  change (c :: v ++ [newline]) with ((c :: v) ++ [newline]).
  rewrite rev_app_distr, Hr. cbn [rev app lstrip].
  change (Chars.is_space newline) with true. cbn iota. rewrite Hc'.
  rewrite <- Hr. apply rev_involutive.
Qed.

Lemma index_step_line (kv : string * string) (d : dict string) :
  index_entry_ok kv = true ->
  index_step (Ok d) (index_line kv) = Ok (dict_set (fst kv) (snd kv) d).
Proof.
  intros H. unfold index_entry_ok in H.
  apply andb_true_iff in H as [H Hends]. apply andb_true_iff in H as [Hk Hv].
  assert (Hno : forall l, forallb (fun c => negb (Ascii.eqb c equals_sign) && Chars.is_dot c) l
                          = true -> ~ In equals_sign l).
  { intros l Hl Hin. rewrite forallb_forall in Hl. apply Hl in Hin.
    rewrite Ascii.eqb_refl in Hin. discriminate. }
  unfold index_step, index_line.
  assert (Hne : nonempty (list_ascii_of_string (fst kv) ++ [equals_sign]
                          ++ list_ascii_of_string (snd kv) ++ [newline]) = true)
    by now destruct (list_ascii_of_string (fst kv)).
  rewrite Hne. cbn [app]. rewrite split_on_piece by now apply Hno.
  rewrite split_on_without.
  - rewrite (strip_line_end _ Hends). now rewrite !string_of_list_ascii_of_string.
  - intros Hin. apply in_app_iff in Hin as [Hin|[Hin|[]]]; [|discriminate Hin].
    revert Hin. now apply Hno.
Qed.

Lemma index_fold_entries (entries : list (string * string)) : forall d,
  forallb index_entry_ok entries = true ->
  fold_left index_step (map index_line entries) (Ok d)
  = Ok (fold_left (fun d kv => dict_set (fst kv) (snd kv) d) entries d).
Proof.
  induction entries as [|kv entries IH]; intros d H; [reflexivity|].
  simpl in H. apply andb_true_iff in H as [Hkv H]. cbn [map fold_left].
  rewrite index_step_line by assumption. now apply IH.
Qed.

Lemma dict_set_fresh {V : Type} k (v : V) (d : dict V) :
  k ∉ map fst d -> dict_set k v d = d ++ [(k, v)].
Proof.
  induction d as [|[k' v'] d IH]; intros H; [reflexivity|].
  simpl in H. apply not_elem_of_cons in H as [Hne H]. simpl.
  destruct (String.eqb_spec k k'); [contradiction|]. now rewrite IH.
Qed.

Lemma fold_dict_set_fresh (entries : list (string * string)) : forall d,
  NoDup (map fst d ++ map fst entries) ->
  fold_left (fun d kv => dict_set (fst kv) (snd kv) d) entries d = d ++ entries.
Proof.
  induction entries as [|[k v] entries IH]; intros d H; [now rewrite app_nil_r|].
  cbn [fold_left fst snd]. simpl in H.
  apply NoDup_app in H as (Hd & Hdis & He). apply NoDup_cons in He as [Hk He].
  rewrite dict_set_fresh.
  - rewrite IH; [now rewrite <- app_assoc|].
    rewrite map_app. simpl. rewrite <- app_assoc. simpl.
    apply NoDup_app. split; [assumption|]. split.
    + intros x Hx Hx'. apply (Hdis x Hx). assumption.
    + now apply NoDup_cons.
  - intros Hin. apply (Hdis k Hin). apply list_elem_of_here.
Qed.

Section IndexRoundTrip.

Context {W : Type}.
Variable http_get : string -> W -> result transport_exn (option Response) * W.

(** X21.  A local index file of [name=value] lines, with distinct names and
    values without white space at their ends, is read back as it was
    written: [read_index] returns the values in the order of the file and
    does not call the transport. *)
Theorem read_index_local (entries : list (string * string)) (c : @client W) :
  entries <> [] ->
  forallb index_entry_ok entries = true ->
  NoDup (map fst entries) ->
  read_index http_get (Some (index_text entries)) c = (NamesView (map snd entries), c).
Proof.
  intros Hne Hok Hnd. unfold read_index, read_local_index, index_text.
  rewrite list_ascii_of_string_of_list_ascii, readlines_index by assumption.
  rewrite index_fold_entries by assumption.
  rewrite fold_dict_set_fresh by assumption. simpl.
  now destruct entries.
Qed.

End IndexRoundTrip.

Lemma download_names_lines_witness :
  table_get index_docs URL_INDEX (world (new_client true tt))
  = (Ok (Some {| ok := true; text := index_reply |}), tt)
  /\ index_reply = string_of_list_ascii (join_lines newline index_reply_lines)
  /\ index_reply <> ""
  /\ Forall (fun l => forallb Chars.is_dot l = true) index_reply_lines
  /\ exists S,
       fst (download_names (table_get index_docs) (new_client true tt)) = Ok (Some S)
       /\ ("foo" ∈ S <-> exists n, In n index_reply_lines /\ is_name_line n = true
                                   /\ "foo" = string_of_list_ascii (strip n)).
Proof.
  assert (H1 : table_get index_docs URL_INDEX (world (new_client true tt))
               = (Ok (Some {| ok := true; text := index_reply |}), tt))
    by (vm_compute; reflexivity).
  assert (H2 : index_reply = string_of_list_ascii (join_lines newline index_reply_lines))
    by (vm_compute; reflexivity).
  assert (H3 : index_reply <> "") by discriminate.
  assert (H4 : Forall (fun l => forallb Chars.is_dot l = true) index_reply_lines)
    by (repeat constructor).
  repeat (split; [assumption|]).
  exact (download_names_lines (table_get index_docs) (new_client true tt)
           {| ok := true; text := index_reply |} tt index_reply_lines "foo"
           H1 eq_refl H2 H3 H4).
Defined.

Lemma read_index_malformed_line_witness :
  In [newline] (readlines (list_ascii_of_string ("foo=foo" +:+ nl +:+ nl)))
  /\ ~ In equals_sign [newline]
  /\ read_index offline_get (Some ("foo=foo" +:+ nl +:+ nl)) (new_client true tt)
     = (NamesSet ∅, new_client true tt).
Proof.
  assert (H1 : In [newline] (readlines (list_ascii_of_string ("foo=foo" +:+ nl +:+ nl))))
    by (vm_compute; right; left; reflexivity).
  assert (H2 : ~ In equals_sign [newline]).
  { intros [H|[]]. discriminate H. }
  split; [exact H1|]. split; [exact H2|].
  exact (read_index_malformed_line offline_get ("foo=foo" +:+ nl +:+ nl)
           (new_client true tt) [newline] H1 H2).
Defined.

Lemma read_index_transport_failure_witness :
  (@None string = None \/ @None string = Some "")
  /\ offline_get URL_INDEX (world (new_client true tt)) = (Raise ConnectionError, tt)
  /\ read_index offline_get None (new_client true tt)
     = (NamesSet ∅, set_world tt (record (EvGet URL_INDEX) (new_client true tt)))
  /\ (fst (download_names offline_get (new_client true tt)) = Raise ConnectionError
      <-> ConnectionError <> ConnectionError).
Proof.
  assert (H1 : @None string = None \/ @None string = Some "") by now left.
  assert (H2 : offline_get URL_INDEX (world (new_client true tt))
               = (Raise ConnectionError, tt)) by reflexivity.
  split; [exact H1|]. split; [exact H2|].
  exact (read_index_transport_failure offline_get None (new_client true tt)
           ConnectionError tt H1 H2).
Defined.

Lemma read_index_local_witness :
  example_index <> []
  /\ forallb index_entry_ok example_index = true
  /\ NoDup (map fst example_index)
  /\ read_index offline_get (Some (index_text example_index)) (new_client true tt)
     = (NamesView (map snd example_index), new_client true tt).
Proof.
  assert (H1 : example_index <> []) by discriminate.
  assert (H2 : forallb index_entry_ok example_index = true) by (vm_compute; reflexivity).
  assert (H3 : NoDup (map fst example_index)).
  { apply (bool_decide_unpack _). vm_compute. exact I. }
  repeat (split; [assumption|]).
  exact (read_index_local offline_get example_index (new_client true tt) H1 H2 H3).
Defined.
